(** * gptme/commands.py: command dispatch and transcript mutation

    A shallow embedding of [execute_cmd] and [handle_cmd] of
    [src/gptme/commands.py].  Python text is modelled by Rocq strings, each
    character standing for the code point of its number, so that the
    texts covered are those over the code points below 256; the transcript
    held by the [LogManager] by a list of messages, and the handler by a
    program in a state-and-exception monad over a [World] that also keeps
    a chronological trace of every observable effect. *)

From Stdlib Require Import String Ascii List Arith Lia Bool DecimalString DecimalNat.
From stdpp Require Import base option list gmap strings.

Local Open Scope string_scope.
Local Open Scope list_scope.

(** ** Python text operations used by the handlers *)

Module Text.

(** [c in chars] for a character and a text. *)
Fixpoint mem (c : ascii) (chars : string) : bool :=
  match chars with
  | EmptyString => false
  | String d chars' => Ascii.eqb c d || mem c chars'
  end.

(** [s.lstrip(chars)]: drops every leading character that occurs in
    [chars]. *)
Fixpoint lstrip (chars : string) (s : string) : string :=
  match s with
  | EmptyString => EmptyString
  | String c s' => if mem c chars then lstrip chars s' else s
  end.

(** [s.split(sep)] for a one-character separator: empty fields are kept,
    and the result always has at least one field. *)
Fixpoint split (sep : ascii) (s : string) : list string :=
  match s with
  | EmptyString => [EmptyString]
  | String c s' =>
      if Ascii.eqb c sep then EmptyString :: split sep s'
      else match split sep s' with
           | [] => [String c EmptyString]
           | field :: fields => String c field :: fields
           end
  end.

(** [sep.join(parts)]. *)
Fixpoint join (sep : string) (parts : list string) : string :=
  match parts with
  | [] => EmptyString
  | [p] => p
  | p :: ps => p +:+ sep +:+ join sep ps
  end.

(** [s[:1]]. *)
Definition first1 (s : string) : string :=
  match s with
  | EmptyString => EmptyString
  | String c _ => String c EmptyString
  end.

(** The decimal digits, which [int] reads. *)
Definition is_decimal (c : ascii) : bool :=
  (48 <=? nat_of_ascii c)%nat && (nat_of_ascii c <=? 57)%nat.

(** The characters [isdigit] accepts: below code point 256 these are the
    decimal digits and the superscript digits U+00B2, U+00B3 and
    U+00B9. *)
Definition is_digit (c : ascii) : bool :=
  is_decimal c
  || (nat_of_ascii c =? 178)%nat
  || (nat_of_ascii c =? 179)%nat
  || (nat_of_ascii c =? 185)%nat.

Fixpoint all_digits (s : string) : bool :=
  match s with
  | EmptyString => true
  | String c s' => is_digit c && all_digits s'
  end.

(** [s.isdigit()]: at least one character, and all of them digits. *)
Definition isdigit (s : string) : bool :=
  match s with
  | EmptyString => false
  | String _ _ => all_digits s
  end.

Fixpoint int_acc (acc : nat) (s : string) : option nat :=
  match s with
  | EmptyString => Some acc
  | String c s' =>
      if is_decimal c then int_acc (10 * acc + (nat_of_ascii c - 48)) s'
      else None
  end.

(** The interpreter refuses to read a numeral of more digits than its
    limit [max_digits], where 0 stands for no limit; numerals of up to 640
    digits are always read. *)
Definition over_limit (max_digits : nat) (s : string) : bool :=
  negb (max_digits =? 0)%nat
  && (640 <? String.length s)%nat
  && (max_digits <? String.length s)%nat.

(** [int(s)] on the texts the handler passes to it, which have passed
    [isdigit]; [None] stands for [ValueError].  A character that is not a
    decimal digit is refused, and so is a text over the limit.  Signs,
    blanks and underscores, which [int] also reads, never reach it
    here. *)
Definition int (max_digits : nat) (s : string) : option nat :=
  match s with
  | EmptyString => None
  | String _ _ => if over_limit max_digits s then None else int_acc 0 s
  end.

(** The lower-case form of a character: the capital letters A to Z, and
    those from U+00C0 to U+00DE other than the multiplication sign, have
    theirs 32 places further. *)
Definition lower_char (c : ascii) : ascii :=
  let n := nat_of_ascii c in
  if (65 <=? n)%nat && (n <=? 90)%nat
     || (192 <=? n)%nat && (n <=? 222)%nat && negb (n =? 215)%nat
  then ascii_of_nat (n + 32) else c.

(** [s.lower()]. *)
Fixpoint lower (s : string) : string :=
  match s with
  | EmptyString => EmptyString
  | String c s' => String (lower_char c) (lower s')
  end.

(** The newline character of the f-strings. *)
Definition nl : string := String (ascii_of_nat 10) EmptyString.

End Text.

(** ** Messages and the world the handlers act on *)

Inductive Role := user | assistant | system.

#[global] Instance Role_eq_dec : EqDecision Role.
Proof. solve_decision. Defined.

(** Modelled from the spec: the [Message] class of [gptme/message.py],
    which is not among the sources; the spec gives it the fields role,
    content and hidden flag, and the handlers build messages from a role
    and a content only. *)
Record Message := mkMessage {
  role : Role;
  content : string;
  hide : bool;
}.

(** [Message(role, content)]. *)
Definition Msg (r : Role) (c : string) : Message := mkMessage r c false.

(** Python exceptions that can leave a handler. *)
Inductive Exn :=
| AssertionError
| IndexError
| ValueError
| EOFError
| FileNotFoundError
| SystemExit (status : nat).

(** Every effect a handler has on its surroundings, in the order of
    occurrence. *)
Inductive Event :=
| EPrint (line : string)                 (* print(...) *)
| EPrintMsg (m : Message)                (* print_msg(m, oneline=False) *)
| EInput (prompt : string)               (* input(prompt) *)
| EEditor (doc : string)                 (* edit_text_with_editor(doc, "toml") *)
| ESleep (seconds : nat)                 (* sleep(1) *)
| EYield (m : Message)                   (* a message handed to the consumer *)
| ELogUndo (n : nat) (quiet : bool)      (* log.undo(n, quiet=...) *)
| ELogAppend (m : Message)               (* log.append(m) *)
| ELogReplace (msgs : list Message)      (* log.log = msgs *)
| ELogWrite                              (* log.write() *)
| ELogPrint (show_hidden : bool)         (* log.print(show_hidden=...) *)
| ELogRename (new_name : string)         (* log.rename(new_name) *)
| ELogFork (new_name : string)           (* log.fork(new_name) *)
| EFileWrite (path code : string).       (* open(path, "w").write(code) *)

Record World := mkWorld {
  log : list Message;                    (* log.log, oldest first *)
  conversation : string;                 (* the conversation's name *)
  storage : gmap string (list Message);  (* persisted conversations *)
  files : gmap string string;            (* the filesystem *)
  stdin : list string;                   (* the lines input() will read *)
  editor : list (string * bool);         (* what the editor will return, and
                                            whether an interrupt arrives in
                                            the pause after that round *)
  trace : list Event;                    (* effects so far, oldest first *)
}.

Definition record (e : Event) (w : World) : World :=
  mkWorld (log w) (conversation w) (storage w) (files w) (stdin w) (editor w)
          (trace w ++ [e]).

Definition set_log (l : list Message) (w : World) : World :=
  mkWorld l (conversation w) (storage w) (files w) (stdin w) (editor w) (trace w).

Definition set_conversation (n : string) (w : World) : World :=
  mkWorld (log w) n (storage w) (files w) (stdin w) (editor w) (trace w).

Definition set_storage (s : gmap string (list Message)) (w : World) : World :=
  mkWorld (log w) (conversation w) s (files w) (stdin w) (editor w) (trace w).

Definition set_files (f : gmap string string) (w : World) : World :=
  mkWorld (log w) (conversation w) (storage w) f (stdin w) (editor w) (trace w).

Definition set_stdin (i : list string) (w : World) : World :=
  mkWorld (log w) (conversation w) (storage w) (files w) i (editor w) (trace w).

Definition set_editor (e : list (string * bool)) (w : World) : World :=
  mkWorld (log w) (conversation w) (storage w) (files w) (stdin w) e (trace w).

(** ** The monad of handlers: state, exceptions, and waiting forever

    [Blocked] is the handler waiting on an editor session that never
    returns (the scripted editor rounds are used up). *)

Inductive Outcome (A : Type) :=
| Ok (a : A) (w : World)
| Raise (e : Exn) (w : World)
| Blocked (w : World).

Arguments Ok {A} a w.
Arguments Raise {A} e w.
Arguments Blocked {A} w.

Definition M (A : Type) : Type := World -> Outcome A.

Definition ret {A} (a : A) : M A := fun w => Ok a w.

Definition bind {A B} (m : M A) (k : A -> M B) : M B :=
  fun w => match m w with
           | Ok a w' => k a w'
           | Raise e w' => Raise e w'
           | Blocked w' => Blocked w'
           end.

Definition raise {A} (e : Exn) : M A := fun w => Raise e w.

Definition modify (f : World -> World) : M unit := fun w => Ok tt (f w).

Definition gets {A} (f : World -> A) : M A := fun w => Ok (f w) w.

Declare Scope cmd_scope.
Delimit Scope cmd_scope with cmd.
Notation "x <- m ;; k" := (bind m (fun x => k))
  (at level 100, m at next level, right associativity) : cmd_scope.
Notation "m ;; k" := (bind m (fun _ => k))
  (at level 100, right associativity) : cmd_scope.
Local Open Scope cmd_scope.

(** The world an outcome ends in. *)
Definition final {A} (o : Outcome A) : World :=
  match o with
  | Ok _ w | Raise _ w | Blocked w => w
  end.

(** [for x in xs: body(x)]. *)
Fixpoint for_each {A} (xs : list A) (body : A -> M unit) : M unit :=
  match xs with
  | [] => ret tt
  | x :: xs' => body x ;; for_each xs' body
  end.

(** ** What the handlers call but do not define

    The execution tools, the summarizer, the context generator and the TOML
    serializer are imported by [commands.py] from modules outside the
    sources.  They are taken as parameters: a generator is given by the
    list of messages it produces, [toml_to_msgs] returns the text of the
    exception on a parse failure.  None of them is handed the transcript;
    what a tool does to files or to the terminal while it runs is not
    part of the model.  The interpreter's limit on the digits of a
    numeral, a setting of the process, is a parameter as well. *)

Class Collaborators := {
  execute_shell : string -> bool -> list Message;     (* execute_shell(cmd, ask=) *)
  execute_python : string -> bool -> list Message;    (* execute_python(code, ask=) *)
  execute_msg : Message -> bool -> list Message;      (* execute_msg(msg, ask=) *)
  summarize : list Message -> string;                 (* summarize(msgs), as printed *)
  _gen_context_msg : Message;                         (* _gen_context_msg() *)
  msgs_to_toml : list Message -> string;              (* msgs_to_toml(msgs) *)
  toml_to_msgs : string -> string + list Message;     (* toml_to_msgs(t) *)
  prepare_messages : list Message -> list Message;    (* log.prepare_messages() *)
  get_last_code_block : list Message -> option string; (* log.get_last_code_block() *)
  int_max_str_digits : nat                            (* sys.get_int_max_str_digits():
                                                         0, or at least 640 *)
}.

(** Modelled from the spec: the constant [CMDFIX] of [gptme/constants.py],
    which is not among the sources.  The spec calls it a single reserved
    character and writes every directive with a slash, the character
    [execute_cmd] tests for. *)
Definition CMDFIX : string := "/".

(** [action_descriptions], in the order of the dict literal. *)
Definition action_descriptions : list (string * string) :=
  [ ("continue", "Continue response");
    ("undo", "Undo the last action");
    ("log", "Show the conversation log");
    ("edit", "Edit previous messages");
    ("rename", "Rename the conversation");
    ("fork", "Create a copy of the conversation with a new name");
    ("summarize", "Summarize the conversation so far");
    ("load", "Load a file");
    ("save", "Save the most recent code block to a file");
    ("shell", "Execute a shell command");
    ("python", "Execute a Python command");
    ("replay", "Re-execute past commands in the conversation (does not store output in log)");
    ("impersonate", "Impersonate the assistant");
    ("help", "Show this help message");
    ("exit", "Exit the program") ].

(** [COMMANDS = list(action_descriptions.keys())]. *)
Definition COMMANDS : list string := map fst action_descriptions.

(** ** The transcript operations of the [LogManager] *)

(** Modelled from the spec: [LogManager.undo] of [gptme/logmanager.py],
    which is not among the sources; "removes the last n messages".  The spec
    leaves open what happens when [n] exceeds the length; here the
    transcript is then emptied, and no statement below about an undo of
    more than one message depends on that. *)
Definition undo (n : nat) (l : list Message) : list Message :=
  take (length l - n) l.

Definition log_undo (n : nat) (quiet : bool) : M unit :=
  modify (fun w => record (ELogUndo n quiet) (set_log (undo n (log w)) w)).

(** Modelled from the spec: [LogManager.append], "append". *)
Definition log_append (m : Message) : M unit :=
  modify (fun w => record (ELogAppend m) (set_log (log w ++ [m]) w)).

(** The assignment [log.log = msgs]. *)
Definition log_replace (msgs : list Message) : M unit :=
  modify (fun w => record (ELogReplace msgs) (set_log msgs w)).

(** Modelled from the spec: [LogManager.write], "persist-to-storage": the
    stored copy of the current conversation becomes the transcript. *)
Definition log_write : M unit :=
  modify (fun w => record ELogWrite
                     (set_storage (<[conversation w := log w]> (storage w)) w)).

(** Modelled from the spec: [LogManager.print], "render-to-user". *)
Definition log_print (show_hidden : bool) : M unit :=
  modify (record (ELogPrint show_hidden)).

(** Modelled from the spec: [LogManager.rename], "rename session": the
    stored copy moves to the new name. *)
Definition log_rename (new_name : string) : M unit :=
  modify (fun w =>
    let moved := match storage w !! conversation w with
                 | Some msgs => <[new_name := msgs]> (delete (conversation w) (storage w))
                 | None => storage w
                 end in
    record (ELogRename new_name) (set_conversation new_name (set_storage moved w))).

(** Modelled from the spec: [LogManager.fork], "copy the entire session
    under a new identity". *)
Definition log_fork (new_name : string) : M unit :=
  modify (fun w => record (ELogFork new_name)
                     (set_storage (<[new_name := log w]> (storage w)) w)).

(** ** Console, files and the generator protocol *)

Definition print (line : string) : M unit := modify (record (EPrint line)).

Definition print_msg (m : Message) : M unit := modify (record (EPrintMsg m)).

(** [input(prompt)]; end of input raises [EOFError]. *)
Definition input (prompt : string) : M string :=
  fun w =>
    let w' := record (EInput prompt) w in
    match stdin w' with
    | [] => Raise EOFError w'
    | line :: rest => Ok line (set_stdin rest w')
    end.

(** [open(filename).read()].  The files are the regular text files of a
    flat name space, and a text is read as it is stored: of the ways
    [open] and [read] can fail only the missing file is modelled. *)
Definition file_read (filename : string) : M string :=
  fun w => match files w !! filename with
           | Some contents => Ok contents w
           | None => Raise FileNotFoundError w
           end.

(** [open(filename, "w").write(code)], on the same files: a target that
    cannot be opened for writing, as one in a missing directory, is not
    modelled. *)
Definition file_write (filename code : string) : M unit :=
  modify (fun w => record (EFileWrite filename code)
                     (set_files (<[filename := code]> (files w)) w)).

(** A consumer that only notes what the generator yields. *)
Definition emit (m : Message) : M unit := modify (record (EYield m)).

(** ** Dispatch on the command name *)

Inductive Handler :=
| HShell | HPython | HContinue | HLog | HRename | HFork | HSummarize
| HEdit | HContext | HUndo | HLoad | HSave | HExit | HReplay
| HImpersonate | HDefault.

#[global] Instance Handler_eq_dec : EqDecision Handler.
Proof. solve_decision. Defined.

(** The patterns of [match name], tried from the top. *)
Definition match_name (name : string) : Handler :=
  if (name =? "bash") || (name =? "sh") || (name =? "shell") then HShell
  else if (name =? "python") || (name =? "py") then HPython
  else if name =? "continue" then HContinue
  else if name =? "log" then HLog
  else if name =? "rename" then HRename
  else if name =? "fork" then HFork
  else if name =? "summarize" then HSummarize
  else if name =? "edit" then HEdit
  else if name =? "context" then HContext
  else if name =? "undo" then HUndo
  else if name =? "load" then HLoad
  else if name =? "save" then HSave
  else if name =? "exit" then HExit
  else if name =? "replay" then HReplay
  else if name =? "impersonate" then HImpersonate
  else HDefault.

(** The names with a [case] of their own. *)
Definition handled_names : list string :=
  [ "bash"; "sh"; "shell"; "python"; "py"; "continue"; "log"; "rename";
    "fork"; "summarize"; "edit"; "context"; "undo"; "load"; "save"; "exit";
    "replay"; "impersonate" ].

(** ** The handler *)

Section Commands.

Context `{Collaborators}.

(** What the generator does with a message it yields is the consumer's
    business: [yield] is the body of the consumer's loop. *)
Variable yield : Message -> M unit.

(** [yield from gen]. *)
Definition yield_from (gen : list Message) : M unit := for_each gen yield.

(** The [while not res] loop of the edit command, one round of the
    editor per iteration; [t] is the document handed to the editor.  An
    empty parse result is falsy, so it reopens the editor as well.  The
    result is [None] when the loop was left by the interrupt. *)
Fixpoint edit_loop (rounds : list (string * bool)) (t : string)
  : M (option (list Message)) :=
  match rounds with
  | [] => fun w => Blocked (record (EEditor t) w)
  | (doc, interrupt) :: rounds' =>
      modify (fun w => record (EEditor t) (set_editor rounds' w)) ;;
      match toml_to_msgs doc with
      | inr [] => edit_loop rounds' doc
      | inr res => ret (Some res)
      | inl e =>
          print (Text.nl +:+ "Failed to parse TOML: " +:+ e) ;;
          modify (record (ESleep 1)) ;;
          if interrupt then
            yield (Msg system "Interrupted") ;;
            ret None
          else edit_loop rounds' doc
      end
  end.

Definition handle_cmd (cmd : string) (no_confirm : bool) : M unit :=
  let cmd := Text.lstrip CMDFIX cmd in
  match Text.split " " cmd with
  | [] => raise ValueError
  | name :: args =>
      match match_name name with
      | HShell =>
          yield_from (execute_shell (Text.join " " args) (negb no_confirm))
      | HPython =>
          yield_from (execute_python (Text.join " " args) (negb no_confirm))
      | HContinue =>
          log_undo 1 true
      | HLog =>
          log_undo 1 true ;;
          log_print (existsb (String.eqb "--hidden") args)
      | HRename =>
          log_undo 1 true ;;
          new_name <- match args with
                      | a :: _ => ret a
                      | [] => input "New name: "
                      end ;;
          log_rename new_name ;;
          print ("Renamed conversation to " +:+ new_name)
      | HFork =>
          new_name <- match args with
                      | a :: _ => ret a
                      | [] => input "New name: "
                      end ;;
          log_fork new_name
      | HSummarize =>
          msgs <- gets (fun w => prepare_messages (log w)) ;;
          let msgs := filter (fun m => hide m = false) msgs in
          print ("Summary: " +:+ summarize msgs)
      | HEdit =>
          log_undo 1 true ;;
          t <- gets (fun w => msgs_to_toml (rev (log w))) ;;
          rounds <- gets editor ;;
          res <- edit_loop rounds t ;;
          match res with
          | None => ret tt
          | Some res =>
              log_replace (rev res) ;;
              log_write ;;
              print "Applied edited messages, write /log to see the result"
          end
      | HContext =>
          yield _gen_context_msg
      | HUndo =>
          log_undo 1 true ;;
          n <- match args with
               | a :: _ =>
                   if Text.isdigit a then
                     match Text.int int_max_str_digits a with
                     | Some n => ret n
                     | None => raise ValueError
                     end
                   else ret 1
               | [] => ret 1
               end ;;
          log_undo n false
      | HLoad =>
          filename <- match args with
                      | a :: _ => ret a
                      | [] => input "Filename: "
                      end ;;
          contents <- file_read filename ;;
          yield (Msg system ("# filename: " +:+ filename +:+ Text.nl +:+ Text.nl
                             +:+ contents))
      | HSave =>
          log_undo 1 true ;;
          code <- gets (fun w => get_last_code_block (log w)) ;;
          match code with
          | None | Some EmptyString => print "No code block found"
          | Some code =>
              filename <- match args with
                          | a :: _ => ret a
                          | [] => input "Filename: "
                          end ;;
              let write :=
                file_write filename code ;;
                print ("Saved code block to " +:+ filename) in
              present <- gets (fun w => files w !! filename) ;;
              match present with
              | Some _ =>
                  ans <- input "File already exists, overwrite? [y/N] " ;;
                  if negb (Text.lower ans =? "y") then ret tt else write
              | None => write
              end
          end
      | HExit =>
          raise (SystemExit 0)
      | HReplay =>
          log_undo 1 true ;;
          print "Replaying conversation..." ;;
          msgs <- gets log ;;
          for_each msgs (fun msg =>
            if bool_decide (role msg = assistant) then
              for_each (execute_msg msg true) print_msg
            else ret tt)
      | HImpersonate =>
          content <- match args with
                     | _ :: _ => ret (Text.join " " args)
                     | [] => input "[impersonate] Assistant: "
                     end ;;
          let msg := Msg assistant content in
          yield msg ;;
          yield_from (execute_msg msg (negb no_confirm))
      | HDefault =>
          entry <- gets (fun w => last (log w)) ;;
          match entry with
          | None => raise IndexError
          | Some entry =>
              (if negb (content entry =? CMDFIX +:+ "help")
               then print "Unknown command" else ret tt) ;;
              log_undo 1 true ;;
              log_write ;;
              print "Available commands:" ;;
              for_each action_descriptions (fun '(cmd, desc) =>
                print ("  " +:+ cmd +:+ ": " +:+ desc))
          end
      end
  end.

End Commands.

Section Execute.

Context `{Collaborators}.

(** [execute_cmd(msg, log)]: every message the handler yields is
    appended to the transcript as it comes. *)
Definition execute_cmd (msg : Message) : M bool :=
  if negb (bool_decide (role msg = user)) then raise AssertionError
  else if existsb (String.eqb (Text.first1 (content msg))) ["/"] then
    handle_cmd log_append (content msg) true ;;
    ret true
  else ret false.

End Execute.

(** ** Vocabulary of the statements *)

(** The handlers that start by retracting the directive's own message. *)
Definition retracts (h : Handler) : bool :=
  match h with
  | HContinue | HLog | HRename | HEdit | HUndo | HSave | HReplay | HDefault => true
  | HShell | HPython | HFork | HSummarize | HContext | HLoad | HExit
  | HImpersonate => false
  end.

Definition is_undo (e : Event) : Prop :=
  match e with ELogUndo _ _ => True | _ => False end.

Definition is_yield (e : Event) : Prop :=
  match e with EYield _ => True | _ => False end.

(** The events of the edit loop: none of them touches the transcript or
    its stored copy. *)
Definition loop_event (e : Event) : Prop :=
  match e with
  | EEditor _ | EPrint _ | ESleep _ | EYield _ => True
  | _ => False
  end.

(** [w'] is [w] with the events [evs] added and nothing else changed. *)
Definition adds (evs : list Event) (w w' : World) : Prop :=
  log w' = log w ∧ conversation w' = conversation w
  ∧ storage w' = storage w ∧ files w' = files w
  ∧ stdin w' = stdin w ∧ editor w' = editor w
  ∧ trace w' = trace w ++ evs.

(** From [w] to [w'] the transcript, its stored copies and the files are
    untouched, and only events of the edit loop were added. *)
Definition quiet (w w' : World) : Prop :=
  log w' = log w ∧ conversation w' = conversation w
  ∧ storage w' = storage w ∧ files w' = files w
  ∧ ∃ evs, trace w' = trace w ++ evs ∧ Forall loop_event evs.

(** [m] leaves the transcript as it is, and all its events satisfy [P]. *)
Definition keeps {A} (P : Event → Prop) (m : M A) : Prop :=
  ∀ w, log (final (m w)) = log w
       ∧ ∃ evs, trace (final (m w)) = trace w ++ evs ∧ Forall P evs.

(** What the replay command prints for a transcript: the results of
    passing every assistant message, in order, through the execution
    handlers with confirmation on. *)
Definition replay_output `{Collaborators} (msgs : list Message) : list Message :=
  flat_map (fun msg => if bool_decide (role msg = assistant)
                       then execute_msg msg true else []) msgs.

(** The lines of the command table, one per registered command. *)
Definition help_table : list Event :=
  map (fun '(cmd, desc) => EPrint ("  " +:+ cmd +:+ ": " +:+ desc))
      action_descriptions.

(** All characters of [s] are among the ten decimal digits. *)
Definition all_decimal (s : string) : bool :=
  forallb (fun c => Text.mem c "0123456789") (list_ascii_of_string s).

(** The number a run of decimal digits denotes, read by the standard
    library. *)
Definition decimal_value (s : string) : nat :=
  match NilEmpty.uint_of_string s with
  | Some d => Nat.of_uint d
  | None => 0
  end.

(** The count the undo command is said to take: the value of a first
    argument that is a non-empty run of decimal digits, and 1 in every
    other case. *)
Definition undo_count_spec (args : list string) : nat :=
  match args with
  | a :: _ => if negb (a =? "") && all_decimal a then decimal_value a else 1
  | [] => 1
  end.

(** The three superscript digits, U+00B2, U+00B3 and U+00B9. *)
Definition superscripts : string :=
  String (ascii_of_nat 178) (String (ascii_of_nat 179)
    (String (ascii_of_nat 185) EmptyString)).

(** All characters of [s] are decimal or superscript digits. *)
Definition all_isdigit (s : string) : bool :=
  forallb (fun c => Text.mem c ("0123456789" +:+ superscripts))
          (list_ascii_of_string s).

(** The first arguments on which the undo command, instead of taking a
    count, fails: those that pass the digit test but are not a decimal
    numeral, or are one with more digits than the interpreter reads. *)
Definition refused `{Collaborators} (args : list string) : bool :=
  match args with
  | a :: _ =>
      negb (a =? "") && all_isdigit a
      && (negb (all_decimal a) || Text.over_limit int_max_str_digits a)
  | [] => false
  end.

(** [n] copies of the directive marker. *)
Fixpoint markers (n : nat) : string :=
  match n with
  | 0 => EmptyString
  | S n' => CMDFIX +:+ markers n'
  end.

(** The marker occupies position 0 of [s]. *)
Definition starts_with_marker (s : string) : Prop :=
  ∃ rest, s = CMDFIX +:+ rest.

(** A round of the edit loop that leads to another round: a document that
    fails to parse with no interrupt in the pause, or one that parses to
    no message at all. *)
Definition retried `{Collaborators} (round : string * bool) : Prop :=
  match toml_to_msgs round.1 with
  | inl _ => round.2 = false
  | inr res => res = []
  end.

(** The file name the save and load commands work on, and the input left
    after it was read: [args[0] if args else input(...)]. *)
Definition target (args : list string) (lines : list string)
  : option (string * list string) :=
  match args, lines with
  | a :: _, _ => Some (a, lines)
  | [], line :: rest => Some (line, rest)
  | [], [] => None
  end.

(** ** A sample session, for the concrete instances *)

Module Sample.

#[export] Instance tools : Collaborators := {|
  execute_shell := fun cmd _ => [Msg system ("$ " +:+ cmd)];
  execute_python := fun code _ => [Msg system (">>> " +:+ code)];
  execute_msg := fun m _ => [Msg system ("ran: " +:+ content m)];
  summarize := fun _ => "a summary";
  _gen_context_msg := Msg system "context";
  msgs_to_toml := fun msgs => Text.join Text.nl (map content msgs);
  toml_to_msgs := fun t =>
    if t =? "" then inr []
    else if Text.mem "!" t then inl "invalid document"
    else inr [Msg user t];
  prepare_messages := fun msgs => msgs;
  get_last_code_block := fun msgs =>
    match last msgs with
    | Some m => Some (content m)
    | None => None
    end;
  int_max_str_digits := 4300
|}.

Definition session (msgs : list Message) : World :=
  mkWorld msgs "chat" ∅ ∅ [] [] [].

End Sample.

(** ** Vocabulary of the further properties *)

(** The number of occurrences of [c] in [s]. *)
Fixpoint count_char (c : ascii) (s : string) : nat :=
  match s with
  | EmptyString => 0
  | String d s' => (if Ascii.eqb d c then 1 else 0) + count_char c s'
  end.

(** The handlers with a [yield] in their case. *)
Definition yields (h : Handler) : bool :=
  match h with
  | HShell | HPython | HEdit | HContext | HLoad | HImpersonate => true
  | HContinue | HLog | HRename | HFork | HSummarize | HUndo | HSave | HExit
  | HReplay | HDefault => false
  end.

(** The documents handed to the editor, in order. *)
Definition editor_inputs (evs : list Event) : list string :=
  omap (fun e => match e with EEditor doc => Some doc | _ => None end) evs.

(** The decimal numeral of [n], written by the standard library. *)
Definition decimal (n : nat) : string :=
  NilEmpty.string_of_uint (Nat.to_uint n).

(** The world after the file name was determined: untouched when it is an
    argument, one prompt and one line of input later when it is read. *)
Definition asked (prompt : string) (args : list string) (w : World) : World :=
  match args, stdin w with
  | [], _ :: rest => set_stdin rest (record (EInput prompt) w)
  | _, _ => w
  end.

(** The execution tool behind a handler, if it is one of the two tool
    commands. *)
Definition tool_of `{Collaborators} (h : Handler)
  : option (string → bool → list Message) :=
  match h with
  | HShell => Some execute_shell
  | HPython => Some execute_python
  | _ => None
  end.

(** The prompt a handler shows when its argument is missing. *)
Definition prompt_of (h : Handler) : option string :=
  match h with
  | HRename | HFork => Some "New name: "
  | HLoad | HSave => Some "Filename: "
  | HImpersonate => Some "[impersonate] Assistant: "
  | _ => None
  end.

(** The prompt event, when the argument had to be asked for. *)
Definition prompted (prompt : string) (args : list string) : list Event :=
  match args with
  | [] => [EInput prompt]
  | _ :: _ => []
  end.

(** The same collaborators under another limit on the digits of a
    numeral. *)
Definition with_limit (limit : nat) (C : Collaborators) : Collaborators :=
  {| execute_shell := @execute_shell C;
     execute_python := @execute_python C;
     execute_msg := @execute_msg C;
     summarize := @summarize C;
     _gen_context_msg := @_gen_context_msg C;
     msgs_to_toml := @msgs_to_toml C;
     toml_to_msgs := @toml_to_msgs C;
     prepare_messages := @prepare_messages C;
     get_last_code_block := @get_last_code_block C;
     int_max_str_digits := limit |}.


(** * Properties *)

(** ** Text *)

Section TextFacts.

Import Text.

Lemma split_cons sep s : ∃ field fields, split sep s = field :: fields.
Proof.
  induction s as [|c s [field [fields IH]]]; simpl; [by eauto|].
  destruct (Ascii.eqb c sep); [by eauto|].
  rewrite IH. by eauto.
Qed.

Lemma lstrip_marker s : lstrip CMDFIX (CMDFIX +:+ s) = lstrip CMDFIX s.
Proof. reflexivity. Qed.

(** What is left after [lstrip] does not start with the marker. *)
Lemma lstrip_no_marker s : first1 (lstrip CMDFIX s) ≠ CMDFIX.
Proof.
  induction s as [|c s IH]; simpl; [done|].
  destruct (Ascii.eqb c "/") eqn:E; simpl; [done|].
  intros [= ->]. by rewrite Ascii.eqb_refl in E.
Qed.

Lemma is_decimal_char c : is_decimal c = mem c "0123456789".
Proof. by destruct c as [[] [] [] [] [] [] [] []]. Qed.

Lemma is_digit_char c : is_digit c = mem c ("0123456789" +:+ superscripts).
Proof. by destruct c as [[] [] [] [] [] [] [] []]. Qed.

Lemma lower_char_y c : lower_char c = "y"%char → c = "y"%char ∨ c = "Y"%char.
Proof.
  destruct c as [[] [] [] [] [] [] [] []]; vm_compute; intros E;
    first [discriminate E | by left | by right].
Qed.

(** Only the two spellings of the letter lower to ["y"]. *)
Lemma lower_y ans : lower ans = "y" ↔ ans = "y" ∨ ans = "Y".
Proof.
  split.
  - destruct ans as [|c [|c' ans]]; simpl; try discriminate.
    intros [= E]. destruct (lower_char_y c E) as [-> | ->]; auto.
  - by intros [-> | ->].
Qed.

Lemma int_acc_decimal s : ∀ acc,
  all_decimal s = true →
  ∃ d, NilEmpty.uint_of_string s = Some d
       ∧ int_acc acc s = Some (Nat.of_uint_acc d acc).
Proof.
  unfold all_decimal. induction s as [|c s IH]; intros acc Hs.
  - exists Decimal.Nil. by split.
  - cbn [list_ascii_of_string forallb] in Hs.
    apply andb_true_iff in Hs as [Hc Hs]. rewrite <- is_decimal_char in Hc.
    cbn [int_acc NilEmpty.uint_of_string]. rewrite Hc.
    destruct (IH (10 * acc + (nat_of_ascii c - 48)) Hs) as (d & Hd & Hi).
    rewrite Hd, Hi. clear IH Hd Hi Hs.
    destruct c as [[] [] [] [] [] [] [] []]; try discriminate Hc;
      (eexists; split; [reflexivity|]);
      cbn [Nat.of_uint_acc]; rewrite Nat.tail_mul_spec;
      do 2 f_equal; vm_compute (nat_of_ascii _ - 48); lia.
Qed.

Lemma int_acc_not_decimal s : ∀ acc,
  all_decimal s = false → int_acc acc s = None.
Proof.
  unfold all_decimal. induction s as [|c s IH]; intros acc Hs; [done|].
  cbn [list_ascii_of_string forallb] in Hs. rewrite <- is_decimal_char in Hs.
  cbn [int_acc]. destruct (is_decimal c); [by apply IH|done].
Qed.

End TextFacts.

(** ** Programs that leave the transcript alone *)

Section Keeps.

Context {P : Event → Prop}.

Lemma keeps_ret {A} (a : A) : keeps P (ret a).
Proof. intros w. split; [done|]. exists []. by rewrite app_nil_r. Qed.

Lemma keeps_raise {A} e : keeps P (@raise A e).
Proof. intros w. split; [done|]. exists []. by rewrite app_nil_r. Qed.

Lemma keeps_gets {A} (f : World → A) : keeps P (gets f).
Proof. intros w. split; [done|]. exists []. by rewrite app_nil_r. Qed.

Lemma keeps_bind {A B} (m : M A) (k : A → M B) :
  keeps P m → (∀ a, keeps P (k a)) → keeps P (bind m k).
Proof.
  intros Hm Hk w. unfold bind.
  destruct (Hm w) as (Hl & evs & Ht & Hp).
  destruct (m w) as [a w1|e w1|w1]; simpl in *;
    [|split; eauto..].
  destruct (Hk a w1) as (Hl' & evs' & Ht' & Hp').
  split; [congruence|].
  exists (evs ++ evs'). split; [|by apply Forall_app].
  by rewrite Ht', Ht, app_assoc.
Qed.

(** Any step that only notes an event and changes something other than
    the transcript. *)
Lemma keeps_step e (f : World → World) :
  (∀ w, log (f w) = log w) → (∀ w, trace (f w) = trace w) → P e →
  keeps P (modify (fun w => record e (f w))).
Proof.
  intros Hl Ht He w. simpl. split; [done|].
  exists [e]. rewrite Ht. split; [done|]. by constructor.
Qed.

Lemma keeps_record e : P e → keeps P (modify (record e)).
Proof. intros He. by apply (keeps_step e (fun w => w)). Qed.

Lemma keeps_input prompt : P (EInput prompt) → keeps P (input prompt).
Proof.
  intros He w. unfold input. simpl.
  destruct (stdin w); simpl; (split; [done|]); exists [EInput prompt];
    (split; [done|]); by constructor.
Qed.

Lemma keeps_file_read filename : keeps P (file_read filename).
Proof.
  intros w. unfold file_read.
  destruct (files w !! filename); simpl; (split; [done|]); exists [];
    by rewrite app_nil_r.
Qed.

Lemma keeps_for_each {A} (xs : list A) (body : A → M unit) :
  (∀ x, keeps P (body x)) → keeps P (for_each xs body).
Proof.
  intros Hb. induction xs as [|x xs IH]; simpl.
  - apply keeps_ret.
  - apply keeps_bind; [apply Hb | by intros _].
Qed.

End Keeps.

(** Breaks a program into its steps. *)
Ltac keeps_steps :=
  repeat first
    [ apply keeps_ret
    | apply keeps_raise
    | apply keeps_gets
    | apply keeps_file_read
    | apply keeps_bind; [|intros ?]
    | apply keeps_for_each; intros ?
    | apply keeps_input
    | apply keeps_record
    | apply keeps_step; [done|done|]
    | match goal with
      | |- keeps _ (match ?x with _ => _ end) => destruct x
      end ].

Lemma undo_prefix n l : undo n l `prefix_of` l.
Proof. apply prefix_take. Qed.

Lemma undo_last pre m : undo 1 (pre ++ [m]) = pre.
Proof.
  unfold undo. rewrite length_app. simpl.
  replace (length pre + 1 - 1) with (length pre) by lia.
  by rewrite take_app_length.
Qed.

(** A silent single-message undo followed by steps that leave the
    transcript alone. *)
Lemma undo_then {A} (rest : M A) w :
  keeps (fun _ => True) rest →
  log (final ((log_undo 1 true ;; rest)%cmd w)) = undo 1 (log w)
  ∧ ∃ evs, trace (final ((log_undo 1 true ;; rest)%cmd w))
           = trace w ++ ELogUndo 1 true :: evs.
Proof.
  intros Hr. unfold bind, log_undo, modify.
  destruct (Hr (record (ELogUndo 1 true) (set_log (undo 1 (log w)) w)))
    as (Hl & evs & Ht & _).
  split; [by rewrite Hl|].
  exists evs. rewrite Ht. simpl. by rewrite <- app_assoc.
Qed.

Lemma for_each_print_msg (msgs : list Message) : ∀ w,
  ∃ w', for_each msgs print_msg w = Ok tt w'
        ∧ adds (map EPrintMsg msgs) w w'.
Proof.
  induction msgs as [|m msgs IH]; intros w; simpl.
  - exists w. split; [done|]. unfold adds. by rewrite app_nil_r.
  - destruct (IH (record (EPrintMsg m) w)) as (w' & E & Ha).
    exists w'. split; [exact E|].
    unfold adds in *. simpl in Ha. destruct Ha as (?&?&?&?&?&?&Ht).
    repeat split; try done. by rewrite Ht, <- app_assoc.
Qed.

(** ** The edit loop *)

Lemma quiet_refl w : quiet w w.
Proof. repeat split. exists []. by rewrite app_nil_r. Qed.

Lemma quiet_trans w1 w2 w3 : quiet w1 w2 → quiet w2 w3 → quiet w1 w3.
Proof.
  intros (Hl & Hc & Hs & Hf & evs & Ht & Hp) (Hl' & Hc' & Hs' & Hf' & evs' & Ht' & Hp').
  repeat split; try congruence.
  exists (evs ++ evs'). split; [|by apply Forall_app].
  by rewrite Ht', Ht, app_assoc.
Qed.

(** Closes a [quiet] goal between a world and an explicit successor. *)
Ltac quiet_now :=
  repeat split; simpl;
  eexists; split; [rewrite <- ?app_assoc; reflexivity | by repeat constructor].

Section EditLoop.

Context `{Collaborators}.

(** Whatever the editor returns and however often, the loop itself
    changes neither the transcript nor its stored copy. *)
Lemma edit_loop_quiet rounds : ∀ t w,
  quiet w (final (edit_loop emit rounds t w)).
Proof.
  induction rounds as [|[doc interrupt] rounds IH]; intros t w; simpl.
  - quiet_now.
  - unfold bind at 1. simpl.
    destruct (toml_to_msgs doc) as [e|[|m res]].
    + unfold bind, print, modify. simpl. destruct interrupt; simpl.
      * quiet_now.
      * eapply quiet_trans; [|apply IH]. quiet_now.
    + eapply quiet_trans; [|apply IH]. quiet_now.
    + quiet_now.
Qed.

(** The loop never raises, and a result it returns is the non-empty
    parse of a document the editor returned. *)
Lemma edit_loop_result rounds : ∀ t w,
  match edit_loop emit rounds t w with
  | Ok (Some res) _ =>
      res ≠ [] ∧ ∃ doc, doc ∈ rounds.*1 ∧ toml_to_msgs doc = inr res
  | Raise _ _ => False
  | _ => True
  end.
Proof.
  induction rounds as [|[doc interrupt] rounds IH]; intros t w; simpl; [done|].
  unfold bind at 1. simpl.
  assert (Hnext : ∀ w', match edit_loop emit rounds doc w' with
    | Ok (Some res) _ =>
        res ≠ [] ∧ ∃ doc', doc' ∈ doc :: rounds.*1 ∧ toml_to_msgs doc' = inr res
    | Raise _ _ => False
    | _ => True
    end).
  { intros w'. specialize (IH doc w').
    destruct (edit_loop emit rounds doc w') as [[res|] ?|? ?|?]; try done.
    destruct IH as (? & doc' & ? & ?). split; [done|].
    exists doc'. split; [by right|done]. }
  destruct (toml_to_msgs doc) as [e|[|m res]] eqn:Hdoc.
  - unfold bind, print, modify. simpl. destruct interrupt; simpl; [done|].
    apply Hnext.
  - apply Hnext.
  - simpl. split; [done|]. exists doc. split; [by left|done].
Qed.

(** Rounds that are retried, then a document that fails to parse with
    an interrupt in the pause: the loop yields the notice and stops. *)
Lemma edit_loop_interrupt doc e rest rounds : ∀ t w,
  Forall retried rounds → toml_to_msgs doc = inl e →
  ∃ w' evs,
    edit_loop emit (rounds ++ (doc, true) :: rest) t w = Ok None w'
    ∧ trace w' = trace w ++ evs ++ [EYield (Msg system "Interrupted")]
    ∧ Forall (fun ev => loop_event ev ∧ ¬ is_yield ev) evs
    ∧ log w' = log w ∧ storage w' = storage w ∧ editor w' = rest.
Proof.
  intros t w Hr Hdoc. revert t w.
  induction Hr as [|[doc' i] rounds Hd Hr IH]; intros t w; simpl.
  - unfold bind at 1. simpl. rewrite Hdoc.
    unfold bind, print, modify, emit. simpl.
    eexists _, [_; _; _]. split; [done|]. simpl.
    split; [by rewrite <- !app_assoc|].
    split; [|done]. repeat constructor; by intros [].
  - unfold bind at 1. simpl. unfold retried in Hd. simpl in Hd.
    destruct (toml_to_msgs doc') as [e'|res].
    + subst i. unfold bind, print, modify. simpl.
      match goal with |- context [edit_loop emit _ doc' ?w1] =>
        destruct (IH doc' w1) as (w' & evs & -> & Ht & Hp & Hl & Hs & He)
      end.
      exists w', (EEditor t :: EPrint (Text.nl +:+ "Failed to parse TOML: " +:+ e')
                   :: ESleep 1 :: evs).
      split; [done|]. simpl in *.
      split; [by rewrite Ht, <- !app_assoc|].
      split; [|done]. repeat (constructor; [by split; [|intros []]|]). done.
    + subst res.
      match goal with |- context [edit_loop emit _ doc' ?w1] =>
        destruct (IH doc' w1) as (w' & evs & -> & Ht & Hp & Hl & Hs & He)
      end.
      exists w', (EEditor t :: evs).
      split; [done|]. simpl in *.
      split; [by rewrite Ht, <- !app_assoc|].
      split; [|done]. constructor; [by split; [|intros []]|done].
Qed.

End EditLoop.

(** ** Dispatch *)

Lemma match_name_default name :
  match_name name = HDefault ↔ name ∉ handled_names.
Proof.
  split.
  - intros Hd Hin. unfold handled_names in Hin.
    repeat (apply elem_of_cons in Hin as [->|Hin]; [by vm_compute in Hd|]).
    by apply elem_of_nil in Hin.
  - intros Hn. unfold match_name.
    assert (Hf : ∀ s, s ∈ handled_names → (name =? s) = false).
    { intros s Hs. apply String.eqb_neq. by intros ->. }
    rewrite !Hf by (unfold handled_names; repeat constructor). done.
Qed.

Lemma lstrip_markers n s :
  Text.lstrip CMDFIX (markers n +:+ s) = Text.lstrip CMDFIX s.
Proof. induction n as [|n IH]; [done|]. simpl. exact IH. Qed.

Lemma starts_with_marker_first1 s :
  starts_with_marker s ↔ Text.first1 s = CMDFIX.
Proof.
  split.
  - by intros [rest ->].
  - destruct s as [|c s]; [done|]. intros [= ->]. by exists s.
Qed.

(** ** The argument of the undo command *)

Lemma all_isdigit_digits s : all_isdigit s = Text.all_digits s.
Proof.
  unfold all_isdigit. induction s as [|c s IH]; [done|].
  cbn [list_ascii_of_string forallb Text.all_digits].
  by rewrite IH, is_digit_char.
Qed.

Lemma length_undo n (l : list Message) : length (undo n l) = length l - n.
Proof. unfold undo. rewrite length_take. lia. Qed.

Section Handlers.

Context `{Collaborators}.

(** What the undo handler computes from its arguments: the count of
    [undo_count_spec], unless the first argument is one of the [refused]
    ones, on which the conversion fails. *)
Lemma undo_count_run (args : list string) :
  match args with
  | a :: _ =>
      if Text.isdigit a then
        match Text.int int_max_str_digits a with
        | Some n => ret n
        | None => raise ValueError
        end
      else ret 1
  | [] => ret 1
  end = if refused args then raise ValueError else ret (undo_count_spec args).
Proof.
  destruct args as [|a args]; [done|]. unfold undo_count_spec, refused.
  rewrite all_isdigit_digits.
  destruct a as [|c a]; [done|].
  change (Text.isdigit (String c a)) with (Text.all_digits (String c a)).
  change (negb (String c a =? "")) with true. cbn [andb].
  destruct (Text.all_digits (String c a)) eqn:E.
  - cbn [andb]. unfold Text.int.
    destruct (Text.over_limit int_max_str_digits (String c a));
      [by rewrite orb_true_r|]. rewrite orb_false_r.
    destruct (all_decimal (String c a)) eqn:Ed.
    + destruct (int_acc_decimal (String c a) 0 Ed) as (d & Hd & Hi).
      unfold decimal_value. by rewrite Hi, Hd.
    + by rewrite (int_acc_not_decimal _ 0 Ed).
  - cbn [andb]. destruct (all_decimal (String c a)) eqn:Ed; [|done].
    exfalso. revert E Ed. rewrite <- all_isdigit_digits.
    unfold all_isdigit, all_decimal. generalize (String c a). clear.
    intros s. induction s as [|c s IH]; [done|].
    cbn [list_ascii_of_string forallb].
    rewrite <- is_digit_char, <- is_decimal_char. unfold Text.is_digit.
    destruct (Text.is_decimal c); [exact IH|done].
Qed.

Lemma undo_run yield cmd nc w name args :
  Text.split " " (Text.lstrip CMDFIX cmd) = name :: args →
  match_name name = HUndo →
  ∃ w1, trace w1 = trace w ++ [ELogUndo 1 true]
        ∧ log w1 = undo 1 (log w)
        ∧ if refused args then handle_cmd yield cmd nc w = Raise ValueError w1
          else ∃ w', handle_cmd yield cmd nc w = Ok tt w'
                     ∧ log w' = undo (undo_count_spec args) (log w1)
                     ∧ trace w' = trace w1
                         ++ [ELogUndo (undo_count_spec args) false].
Proof.
  intros Hs Hm. unfold handle_cmd. rewrite Hs, Hm, undo_count_run.
  eexists. split; [|split]; [| |destruct (refused args)].
  3: reflexivity.
  3: eexists; split; [reflexivity|]; split; reflexivity.
  all: reflexivity.
Qed.

Lemma replay_run yield cmd nc w name args :
  Text.split " " (Text.lstrip CMDFIX cmd) = name :: args →
  match_name name = HReplay →
  ∃ w', handle_cmd yield cmd nc w = Ok tt w'
        ∧ log w' = undo 1 (log w)
        ∧ storage w' = storage w
        ∧ trace w' = trace w ++ ELogUndo 1 true
                       :: EPrint "Replaying conversation..."
                       :: map EPrintMsg (replay_output (undo 1 (log w))).
Proof.
  intros Hs Hm. unfold handle_cmd. rewrite Hs, Hm.
  unfold bind at 1. simpl. unfold bind at 1. simpl. unfold bind at 1. simpl.
  set (w1 := record _ _). change (undo 1 (log w)) with (log w1).
  assert (Hloop : ∀ msgs w2, ∃ w',
    for_each msgs (fun msg =>
      if bool_decide (role msg = assistant)
      then for_each (execute_msg msg true) print_msg else ret tt) w2 = Ok tt w'
    ∧ adds (map EPrintMsg (replay_output msgs)) w2 w').
  { induction msgs as [|msg msgs IH]; intros w2; simpl.
    - exists w2. split; [done|]. unfold adds. by rewrite app_nil_r.
    - unfold bind. destruct (bool_decide (role msg = assistant)).
      + destruct (for_each_print_msg (execute_msg msg true) w2)
          as (w3 & -> & H3).
        destruct (IH w3) as (w' & -> & H').
        exists w'. split; [done|]. unfold adds in *.
        destruct H3 as (?&?&?&?&?&?&Ht3), H' as (?&?&?&?&?&?&Ht').
        repeat split; try congruence.
        by rewrite Ht', Ht3, map_app, app_assoc.
      + simpl. apply IH. }
  destruct (Hloop (log w1) w1) as (w' & -> & Ha).
  exists w'. split; [done|]. destruct Ha as (Hl&?&Hst&?&?&?&Ht).
  split; [done|]. split; [done|].
  rewrite Ht. simpl. by rewrite <- !app_assoc.
Qed.

End Handlers.

Section MoreHandlers.

Context `{Collaborators}.

(** The handlers without a self-retraction leave the transcript as it
    is and never call [log.undo]. *)
Lemma not_retracting_keeps cmd nc name args :
  Text.split " " (Text.lstrip CMDFIX cmd) = name :: args →
  retracts (match_name name) = false →
  keeps (fun e => ¬ is_undo e) (handle_cmd emit cmd nc).
Proof.
  intros Hs Hr. unfold handle_cmd. rewrite Hs.
  destruct (match_name name); try discriminate Hr;
    unfold yield_from, emit, print, log_fork;
    keeps_steps; by intros [].
Qed.

(** The fork and summarize handlers yield nothing, so the consumer
    does not matter. *)
Lemma fork_summarize_no_yield yield cmd nc name args :
  Text.split " " (Text.lstrip CMDFIX cmd) = name :: args →
  name = "fork" ∨ name = "summarize" →
  handle_cmd yield cmd nc = handle_cmd emit cmd nc.
Proof.
  intros Hs Hn. unfold handle_cmd. rewrite Hs. by destruct Hn as [-> | ->].
Qed.

Lemma default_run yield cmd nc w name args entry :
  Text.split " " (Text.lstrip CMDFIX cmd) = name :: args →
  match_name name = HDefault →
  last (log w) = Some entry →
  ∃ w', handle_cmd yield cmd nc w = Ok tt w'
        ∧ log w' = undo 1 (log w)
        ∧ storage w' = <[conversation w := undo 1 (log w)]> (storage w)
        ∧ trace w' = trace w
            ++ (if decide (content entry = CMDFIX +:+ "help") then []
                else [EPrint "Unknown command"])
            ++ [ELogUndo 1 true; ELogWrite; EPrint "Available commands:"]
            ++ help_table.
Proof.
  intros Hs Hm Hl. unfold handle_cmd. rewrite Hs, Hm.
  unfold bind at 1, gets. rewrite Hl.
  destruct (decide (content entry = CMDFIX +:+ "help")) as [E|E].
  - rewrite E. eexists. split; [reflexivity|]. simpl.
    split; [done|]. split; [done|]. rewrite <- !app_assoc. reflexivity.
  - apply String.eqb_neq in E. rewrite E.
    eexists. split; [reflexivity|]. simpl.
    split; [done|]. split; [done|]. rewrite <- !app_assoc. reflexivity.
Qed.

Lemma edit_run cmd nc w name args :
  Text.split " " (Text.lstrip CMDFIX cmd) = name :: args →
  match_name name = HEdit →
  let o := handle_cmd emit cmd nc w in
  ∃ evs, Forall loop_event evs
    ∧ ((∃ doc res w',
          doc ∈ (editor w).*1 ∧ toml_to_msgs doc = inr res ∧ res ≠ []
          ∧ o = Ok tt w'
          ∧ log w' = rev res
          ∧ storage w' = <[conversation w := rev res]> (storage w)
          ∧ trace w' = trace w ++ ELogUndo 1 true :: evs
              ++ [ELogReplace (rev res); ELogWrite;
                  EPrint "Applied edited messages, write /log to see the result"])
       ∨ (log (final o) = undo 1 (log w)
          ∧ storage (final o) = storage w
          ∧ trace (final o) = trace w ++ ELogUndo 1 true :: evs)).
Proof.
  intros Hs Hm. unfold handle_cmd. rewrite Hs, Hm.
  unfold bind, gets, log_undo, modify. cbn [editor record set_log log].
  match goal with |- context [edit_loop emit (editor w) ?t ?w1] =>
    pose proof (edit_loop_quiet (editor w) t w1) as Hq;
    pose proof (edit_loop_result (editor w) t w1) as Hres;
    destruct (edit_loop emit (editor w) t w1) as [[res|] w2|e w2|w2]
  end;
    destruct Hq as (Hl & Hc & Hst & Hf & evs & Ht & Hp);
    simpl in Hl, Hc, Hst, Ht; exists evs; (split; [done|]).
  - left. destruct Hres as (Hne & doc & Hin & Hdoc).
    exists doc, res. eexists. do 3 (split; [done|]).
    split; [reflexivity|]. simpl. split; [done|].
    split; [by rewrite Hc, Hst|].
    rewrite Ht. rewrite <- !app_assoc. reflexivity.
  - right. simpl. split; [done|]. split; [done|].
    rewrite Ht. rewrite <- !app_assoc. reflexivity.
  - done.
  - right. simpl. split; [done|]. split; [done|].
    rewrite Ht. rewrite <- !app_assoc. reflexivity.
Qed.

(** The handlers with a self-retraction: a silent single-message undo
    comes before every other transcript operation, and what is left at
    the end is a prefix of the transcript without its last entry, or
    the edited transcript. *)
Lemma retracting_run cmd nc w name args :
  Text.split " " (Text.lstrip CMDFIX cmd) = name :: args →
  retracts (match_name name) = true →
  log w ≠ [] →
  let w' := final (handle_cmd emit cmd nc w) in
  (∃ evs0 evs, trace w' = trace w ++ evs0 ++ ELogUndo 1 true :: evs
               ∧ (evs0 = [] ∨ evs0 = [EPrint "Unknown command"]))
  ∧ (log w' `prefix_of` undo 1 (log w)
     ∨ (match_name name = HEdit
        ∧ ∃ doc res, doc ∈ (editor w).*1 ∧ toml_to_msgs doc = inr res
                     ∧ res ≠ [] ∧ log w' = rev res)).
Proof.
  intros Hs Hr Hne. cbv zeta.
  destruct (match_name name) eqn:Hm; try discriminate Hr; clear Hr.
  - (* continue *)
    unfold handle_cmd. rewrite Hs, Hm. simpl.
    split; [by exists [], []; split; [|left]|]. by left.
  - (* log *)
    unfold handle_cmd. rewrite Hs, Hm.
    match goal with |- context [bind (log_undo 1 true) (fun _ => ?rest)] =>
      destruct (undo_then rest w) as (Hl & evs & Ht);
        [unfold log_print; keeps_steps; done|]
    end.
    cbn [final]. rewrite Hl, Ht.
    split; [by exists [], evs; split; [|left]|]. by left.
  - (* rename *)
    unfold handle_cmd. rewrite Hs, Hm.
    match goal with |- context [bind (log_undo 1 true) (fun _ => ?rest)] =>
      destruct (undo_then rest w) as (Hl & evs & Ht);
        [unfold log_rename, print; keeps_steps; done|]
    end.
    cbn [final]. rewrite Hl, Ht.
    split; [by exists [], evs; split; [|left]|]. by left.
  - (* edit *)
    destruct (edit_run cmd nc w name args Hs Hm)
      as (evs & _ & [(doc & res & w1 & Hin & Hdoc & Hres & -> & Hl & _ & Ht)
                    | (Hl & _ & Ht)]); simpl.
    + split; [by eexists [], _; split; [|left]|].
      right. split; [done|]. by exists doc, res.
    + cbn [final]. rewrite Hl, Ht. split; [by eexists [], _; split; [|left]|]. by left.
  - (* undo *)
    destruct (undo_run emit cmd nc w name args Hs Hm) as (w1 & Ht1 & Hl1 & Hrun).
    destruct (refused args).
    + rewrite Hrun. cbn [final]. rewrite Ht1, Hl1.
      split; [by eexists [], _; split; [|left]|]. by left.
    + destruct Hrun as (w2 & -> & Hl & Ht). cbn [final].
      rewrite Hl, Ht, Ht1, Hl1, <- app_assoc.
      split; [by eexists [], _; split; [|left]|]. left. apply undo_prefix.
  - (* save *)
    unfold handle_cmd. rewrite Hs, Hm.
    match goal with |- context [bind (log_undo 1 true) (fun _ => ?rest)] =>
      destruct (undo_then rest w) as (Hl & evs & Ht);
        [unfold file_write, print; keeps_steps; done|]
    end.
    cbn [final]. rewrite Hl, Ht.
    split; [by exists [], evs; split; [|left]|]. by left.
  - (* replay *)
    destruct (replay_run emit cmd nc w name args Hs Hm)
      as (w1 & -> & Hl & _ & Ht).
    cbn [final]. rewrite Hl, Ht.
    split; [by eexists [], _; split; [|left]|]. by left.
  - (* unknown names and help *)
    destruct (last (log w)) as [entry|] eqn:Hlast;
      [|by apply last_None in Hlast].
    destruct (default_run emit cmd nc w name args entry Hs Hm Hlast)
      as (w1 & -> & Hl & _ & Ht).
    simpl. rewrite Hl, Ht. split; [|by left].
    destruct (decide _); eexists _, _; (split; [reflexivity|]); auto.
Qed.

End MoreHandlers.

Section Save.

Context `{Collaborators}.

Lemma save_run yield cmd nc w name args code filename ans more old :
  Text.split " " (Text.lstrip CMDFIX cmd) = name :: args →
  match_name name = HSave →
  get_last_code_block (undo 1 (log w)) = Some code →
  code ≠ "" →
  target args (stdin w) = Some (filename, ans :: more) →
  files w !! filename = Some old →
  ∃ w' evs,
    handle_cmd yield cmd nc w = Ok tt w'
    ∧ trace w' = trace w ++ evs
    ∧ EInput "File already exists, overwrite? [y/N] " ∈ evs
    ∧ (Text.lower ans = "y" →
         files w' = <[filename := code]> (files w)
         ∧ EFileWrite filename code ∈ evs)
    ∧ (Text.lower ans ≠ "y" →
         files w' = files w ∧ ∀ path text, EFileWrite path text ∉ evs).
Proof.
  intros Hs Hm Hcode Hne Htarget Hfile. unfold handle_cmd. rewrite Hs, Hm.
  unfold bind at 1. simpl. unfold bind at 1. simpl. rewrite Hcode.
  destruct code as [|c code]; [done|].
  destruct args as [|a args]; simpl in Htarget.
  - destruct (stdin w) as [|line lines] eqn:Hin; [done|].
    injection Htarget as -> ->.
    unfold bind at 1, input at 1. simpl. rewrite Hin.
    unfold bind at 1. simpl. rewrite Hfile.
    unfold bind at 1, input at 1. simpl.
    destruct (String.eqb_spec (Text.lower ans) "y") as [E|E]; simpl.
    + eexists _, [_; _; _; _; _]. split; [reflexivity|]. simpl.
      split; [rewrite <- !app_assoc; reflexivity|].
      split; [by repeat constructor|].
      split; [intros _; split; [done|by repeat constructor]|done].
    + eexists _, [_; _; _]. split; [reflexivity|]. simpl.
      split; [rewrite <- !app_assoc; reflexivity|].
      split; [by repeat constructor|].
      split; [done|]. intros _. split; [done|].
      intros path text Hin'. repeat (apply elem_of_cons in Hin' as [?|Hin']; [done|]).
      by apply elem_of_nil in Hin'.
  - injection Htarget as -> Hin.
    unfold bind at 1. simpl. unfold bind at 1. simpl. rewrite Hfile.
    unfold bind at 1, input at 1. simpl. rewrite Hin.
    destruct (String.eqb_spec (Text.lower ans) "y") as [E|E]; simpl.
    + eexists _, [_; _; _; _]. split; [reflexivity|]. simpl.
      split; [rewrite <- !app_assoc; reflexivity|].
      split; [by repeat constructor|].
      split; [intros _; split; [done|by repeat constructor]|done].
    + eexists _, [_; _]. split; [reflexivity|]. simpl.
      split; [rewrite <- !app_assoc; reflexivity|].
      split; [by repeat constructor|].
      split; [done|]. intros _. split; [done|].
      intros path text Hin'. repeat (apply elem_of_cons in Hin' as [?|Hin']; [done|]).
      by apply elem_of_nil in Hin'.
Qed.

End Save.

(** ** Self-retraction *)

Section Retraction.

Context `{Collaborators}.

(** C1 (as amended).  Let the directive be the last entry [m] of the
    transcript.  For continue, log, rename, edit, undo, save, replay and
    every name without a case of its own (help included) the first
    transcript operation is the silent single-message undo, preceded at
    most by the unknown-command notice, and the handler leaves a prefix
    of the transcript without [m], or the transcript the editor
    returned.  For the shell and Python commands, context, load,
    impersonate and exit, as for fork and summarize, the handler never
    calls undo and the transcript, [m] included, is as it was. *)
Theorem self_retraction_by_handler cmd nc w pre m name args :
  log w = pre ++ [m] →
  Text.split " " (Text.lstrip CMDFIX cmd) = name :: args →
  let w' := final (handle_cmd emit cmd nc w) in
  if retracts (match_name name) then
    (∃ evs0 evs, trace w' = trace w ++ evs0 ++ ELogUndo 1 true :: evs
                 ∧ (evs0 = [] ∨ evs0 = [EPrint "Unknown command"]))
    ∧ (log w' `prefix_of` pre
       ∨ (match_name name = HEdit
          ∧ ∃ doc res, doc ∈ (editor w).*1 ∧ toml_to_msgs doc = inr res
                       ∧ res ≠ [] ∧ log w' = rev res))
  else
    log w' = pre ++ [m]
    ∧ ∃ evs, trace w' = trace w ++ evs ∧ Forall (fun e => ¬ is_undo e) evs.
Proof.
  intros Hl Hs. cbv zeta.
  destruct (retracts (match_name name)) eqn:Hr.
  - assert (Hne : log w ≠ []) by (rewrite Hl; by destruct pre).
    pose proof (retracting_run cmd nc w name args Hs Hr Hne) as Hrun.
    cbv zeta in Hrun. by rewrite Hl, undo_last in Hrun.
  - destruct (not_retracting_keeps cmd nc name args Hs Hr w) as (Hk & Hev).
    by rewrite Hk.
Qed.

(** C5.  The fork and summarize handlers never call undo, whoever
    consumes the generator, and the transcript they leave is the one
    they found: the directive is still its last entry. *)
Theorem fork_summarize_keep_directive yield cmd nc w name args :
  Text.split " " (Text.lstrip CMDFIX cmd) = name :: args →
  name = "fork" ∨ name = "summarize" →
  let w' := final (handle_cmd yield cmd nc w) in
  log w' = log w
  ∧ (∃ evs, trace w' = trace w ++ evs ∧ Forall (fun e => ¬ is_undo e) evs)
  ∧ ∀ pre m, log w = pre ++ [m] → last (log w') = Some m.
Proof.
  intros Hs Hn. cbv zeta.
  rewrite (fork_summarize_no_yield yield cmd nc name args Hs Hn).
  assert (Hr : retracts (match_name name) = false) by by destruct Hn as [-> | ->].
  destruct (not_retracting_keeps cmd nc name args Hs Hr w) as (Hk & Hev).
  split; [done|]. split; [done|].
  intros pre m Hl. by rewrite Hk, Hl, last_snoc.
Qed.

End Retraction.

(** C1, as stated, fails: the context command is neither fork nor
    summarize, and after it the directive is still in the transcript,
    both when the generator is run on its own and under [execute_cmd]. *)
Lemma context_directive_stays :
  let directive := Msg user "/context" in
  let w := Sample.session [Msg user "hello"; directive] in
  match_name "context" ≠ HFork ∧ match_name "context" ≠ HSummarize
  ∧ (∃ w', handle_cmd (H := Sample.tools) emit "/context" true w = Ok tt w'
           ∧ log w' = [Msg user "hello"; directive])
  ∧ (∃ w', execute_cmd (H := Sample.tools) directive w = Ok true w'
           ∧ log w' = [Msg user "hello"; directive; Msg system "context"]).
Proof.
  repeat split; try discriminate; eexists; (split; [reflexivity|]); reflexivity.
Qed.

Lemma self_retraction_by_handler_witness :
  let w := Sample.session [Msg user "hello"; Msg user "/log"] in
  let w' := final (handle_cmd (H := Sample.tools) emit "/log" true w) in
  (∃ evs0 evs, trace w' = trace w ++ evs0 ++ ELogUndo 1 true :: evs
               ∧ (evs0 = [] ∨ evs0 = [EPrint "Unknown command"]))
  ∧ (log w' `prefix_of` [Msg user "hello"]
     ∨ (match_name "log" = HEdit
        ∧ ∃ doc res, doc ∈ (editor w).*1
                     ∧ toml_to_msgs (Collaborators := Sample.tools) doc = inr res
                     ∧ res ≠ [] ∧ log w' = rev res)).
Proof.
  exact (self_retraction_by_handler (H := Sample.tools) "/log" true
           (Sample.session [Msg user "hello"; Msg user "/log"])
           [Msg user "hello"] (Msg user "/log") "log" [] eq_refl eq_refl).
Defined.

Lemma fork_summarize_keep_directive_witness :
  let w := Sample.session [Msg user "hello"; Msg user "/fork copy"] in
  let w' := final (handle_cmd (H := Sample.tools) log_append "/fork copy" true w) in
  log w' = log w
  ∧ (∃ evs, trace w' = trace w ++ evs ∧ Forall (fun e => ¬ is_undo e) evs)
  ∧ ∀ pre m, log w = pre ++ [m] → last (log w') = Some m.
Proof.
  exact (fork_summarize_keep_directive (H := Sample.tools) log_append
           "/fork copy" true
           (Sample.session [Msg user "hello"; Msg user "/fork copy"])
           "fork" ["copy"] eq_refl (or_introl eq_refl)).
Defined.

(** ** Undo and replay *)

Section UndoReplay.

Context `{Collaborators}.

(** C2 (not met by the code).  The undo handler first undoes its own
    directive silently.  On every first argument but the [refused] ones it
    then undoes the count of [undo_count_spec], as C2 states: the value of
    a first argument made of decimal digits only, and 1 for any other
    first argument or none.  On a first argument that passes the digit
    test without being a decimal numeral, such as a superscript two, or
    that has more digits than the interpreter reads, it raises
    [ValueError], where C2 has it undo one or that many messages. *)
Theorem undo_count_or_value_error yield cmd nc w name args :
  Text.split " " (Text.lstrip CMDFIX cmd) = name :: args →
  name = "undo" →
  if refused args
  then ∃ w', handle_cmd yield cmd nc w = Raise ValueError w'
             ∧ trace w' = trace w ++ [ELogUndo 1 true]
  else ∃ w', handle_cmd yield cmd nc w = Ok tt w'
             ∧ trace w' = trace w ++ [ELogUndo 1 true;
                                      ELogUndo (undo_count_spec args) false].
Proof.
  intros Hs ->.
  destruct (undo_run yield cmd nc w "undo" args Hs eq_refl)
    as (w1 & Ht1 & _ & Hrun).
  destruct (refused args).
  - by exists w1.
  - destruct Hrun as (w' & Hrun & _ & Ht). exists w'. split; [done|].
    by rewrite Ht, Ht1, <- app_assoc.
Qed.

(** C4.  The replay handler yields nothing, whoever consumes the
    generator: after the self-retraction it only prints the results of
    the assistant messages, so a transcript [pre] on which the directive
    [m] was entered is [pre] again afterwards, with as many messages. *)
Theorem replay_appends_nothing yield cmd nc w name args :
  Text.split " " (Text.lstrip CMDFIX cmd) = name :: args →
  name = "replay" →
  ∃ w', handle_cmd yield cmd nc w = Ok tt w'
        ∧ trace w' = trace w ++ ELogUndo 1 true
                       :: EPrint "Replaying conversation..."
                       :: map EPrintMsg (replay_output (undo 1 (log w)))
        ∧ log w' = undo 1 (log w)
        ∧ storage w' = storage w
        ∧ ∀ pre m, log w = pre ++ [m] →
                   log w' = pre ∧ length (log w') = length pre.
Proof.
  intros Hs ->.
  destruct (replay_run yield cmd nc w "replay" args Hs eq_refl)
    as (w' & Hrun & Hl & Hst & Ht).
  exists w'. do 4 (split; [done|]).
  intros pre m Hw. rewrite Hl, Hw, undo_last. by split.
Qed.

End UndoReplay.

Lemma undo_count_or_value_error_witness :
  let two := String (ascii_of_nat 178) EmptyString in
  let w := Sample.session [Msg user "hello"; Msg user ("/undo " +:+ two)] in
  ∃ w', handle_cmd (H := Sample.tools) emit ("/undo " +:+ two) true w
        = Raise ValueError w'
        ∧ trace w' = trace w ++ [ELogUndo 1 true].
Proof.
  exact (undo_count_or_value_error (H := Sample.tools) emit
           ("/undo " +:+ String (ascii_of_nat 178) EmptyString) true
           (Sample.session [Msg user "hello";
                            Msg user ("/undo " +:+ String (ascii_of_nat 178) EmptyString)])
           "undo" [String (ascii_of_nat 178) EmptyString] eq_refl eq_refl).
Defined.

Lemma replay_appends_nothing_witness :
  let w := Sample.session [Msg assistant "ls"; Msg user "ok"; Msg assistant "pwd";
                           Msg user "/replay"] in
  ∃ w', handle_cmd (H := Sample.tools) log_append "/replay" true w = Ok tt w'
        ∧ trace w' = trace w ++ ELogUndo 1 true
                       :: EPrint "Replaying conversation..."
                       :: map EPrintMsg
                            (replay_output (H := Sample.tools) (undo 1 (log w)))
        ∧ log w' = undo 1 (log w)
        ∧ storage w' = storage w
        ∧ ∀ pre m, log w = pre ++ [m] →
                   log w' = pre ∧ length (log w') = length pre.
Proof.
  exact (replay_appends_nothing (H := Sample.tools) log_append "/replay" true
           (Sample.session [Msg assistant "ls"; Msg user "ok"; Msg assistant "pwd";
                            Msg user "/replay"])
           "replay" [] eq_refl eq_refl).
Defined.

(** The counts of some first arguments. *)
Example undo_count_examples :
  undo_count_spec [] = 1 ∧ undo_count_spec ["3"] = 3
  ∧ undo_count_spec ["012"; "x"] = 12 ∧ undo_count_spec ["-3"] = 1
  ∧ undo_count_spec ["2x"] = 1 ∧ undo_count_spec [""] = 1
  ∧ undo_count_spec ["0"] = 0.
Proof. repeat split. Qed.

(** First arguments that pass the digit test and are refused, and some
    that are not. *)
Example refused_examples :
  refused (H := Sample.tools) [superscripts] = true
  ∧ refused (H := Sample.tools) ["1" +:+ superscripts] = true
  ∧ refused (H := Sample.tools) ["12"] = false
  ∧ refused (H := Sample.tools) ["-3"] = false
  ∧ refused (H := Sample.tools) [""] = false
  ∧ refused (H := Sample.tools) [] = false.
Proof. repeat split. Qed.

(** With a count that is read, the handler goes on to the second undo. *)
Example undo_two :
  let w := Sample.session [Msg user "hello"; Msg user "/undo 2"] in
  ∃ w', handle_cmd (H := Sample.tools) emit "/undo 2" true w = Ok tt w'
        ∧ trace w' = [ELogUndo 1 true; ELogUndo 2 false].
Proof. by eexists. Qed.

(** ** The edit session *)

Section EditSession.

Context `{Collaborators}.

(** C3.  Whatever the editor returns, the events of the edit loop are
    editor sessions, notices, pauses and at most the interrupt notice,
    none of which touches the transcript or its stored copy.  Either a
    document parsed to a non-empty sequence [res], and only then, after
    all these events, the transcript becomes [rev res] and is persisted;
    or the transcript is what the self-retraction left and nothing was
    persisted. *)
Theorem edit_applies_only_parsed cmd nc w name args :
  Text.split " " (Text.lstrip CMDFIX cmd) = name :: args →
  name = "edit" →
  let o := handle_cmd emit cmd nc w in
  ∃ evs, Forall loop_event evs
    ∧ ((∃ doc res w',
          doc ∈ (editor w).*1 ∧ toml_to_msgs doc = inr res ∧ res ≠ []
          ∧ o = Ok tt w'
          ∧ log w' = rev res
          ∧ storage w' = <[conversation w := rev res]> (storage w)
          ∧ trace w' = trace w ++ ELogUndo 1 true :: evs
              ++ [ELogReplace (rev res); ELogWrite;
                  EPrint "Applied edited messages, write /log to see the result"])
       ∨ (log (final o) = undo 1 (log w)
          ∧ storage (final o) = storage w
          ∧ trace (final o) = trace w ++ ELogUndo 1 true :: evs)).
Proof. intros Hs ->. by apply (edit_run cmd nc w "edit" args). Qed.

(** C9.  After any number of retried rounds, a document that fails to
    parse followed by an interrupt in the pause makes the handler yield
    the one system message and return: the transcript is what the
    self-retraction left, and nothing is replaced or persisted. *)
Theorem edit_interrupt_aborts cmd nc w name args rounds doc e rest :
  Text.split " " (Text.lstrip CMDFIX cmd) = name :: args →
  name = "edit" →
  editor w = rounds ++ (doc, true) :: rest →
  Forall retried rounds →
  toml_to_msgs doc = inl e →
  ∃ w' evs,
    handle_cmd emit cmd nc w = Ok tt w'
    ∧ trace w' = trace w ++ ELogUndo 1 true :: evs
                   ++ [EYield (Msg system "Interrupted")]
    ∧ Forall (fun ev => loop_event ev ∧ ¬ is_yield ev) evs
    ∧ log w' = undo 1 (log w)
    ∧ storage w' = storage w.
Proof.
  intros Hs -> Hed Hr Hdoc. unfold handle_cmd. rewrite Hs.
  change (match_name "edit") with HEdit. cbv iota.
  unfold bind, gets, log_undo, modify. cbn [editor record set_log log].
  rewrite Hed.
  match goal with |- context [edit_loop emit _ ?t ?w1] =>
    destruct (edit_loop_interrupt doc e rest rounds t w1 Hr Hdoc)
      as (w' & evs & -> & Ht & Hp & Hl & Hst & _)
  end.
  exists w', evs. simpl in Ht, Hl, Hst.
  split; [done|]. split; [|done].
  rewrite Ht, <- !app_assoc. reflexivity.
Qed.

End EditSession.

Lemma edit_applies_only_parsed_witness :
  let w := mkWorld [Msg user "helo"; Msg user "/edit"] "chat" ∅ ∅ []
                   [("oops!", false); ("hello", false)] [] in
  let o := handle_cmd (H := Sample.tools) emit "/edit" true w in
  ∃ evs, Forall loop_event evs
    ∧ ((∃ doc res w',
          doc ∈ (editor w).*1
          ∧ toml_to_msgs (Collaborators := Sample.tools) doc = inr res ∧ res ≠ []
          ∧ o = Ok tt w'
          ∧ log w' = rev res
          ∧ storage w' = <[conversation w := rev res]> (storage w)
          ∧ trace w' = trace w ++ ELogUndo 1 true :: evs
              ++ [ELogReplace (rev res); ELogWrite;
                  EPrint "Applied edited messages, write /log to see the result"])
       ∨ (log (final o) = undo 1 (log w)
          ∧ storage (final o) = storage w
          ∧ trace (final o) = trace w ++ ELogUndo 1 true :: evs)).
Proof.
  exact (edit_applies_only_parsed (H := Sample.tools) "/edit" true
           (mkWorld [Msg user "helo"; Msg user "/edit"] "chat" ∅ ∅ []
                    [("oops!", false); ("hello", false)] [])
           "edit" [] eq_refl eq_refl).
Defined.

Lemma edit_interrupt_aborts_witness :
  let w := mkWorld [Msg user "helo"; Msg user "/edit"] "chat" ∅ ∅ []
                   [("oops!", false); ("", true); ("oops!!", true); ("hello", false)]
                   [] in
  ∃ w' evs,
    handle_cmd (H := Sample.tools) emit "/edit" true w = Ok tt w'
    ∧ trace w' = trace w ++ ELogUndo 1 true :: evs
                   ++ [EYield (Msg system "Interrupted")]
    ∧ Forall (fun ev => loop_event ev ∧ ¬ is_yield ev) evs
    ∧ log w' = undo 1 (log w)
    ∧ storage w' = storage w.
Proof.
  apply (edit_interrupt_aborts (H := Sample.tools) "/edit" true _ "edit" []
           [("oops!", false); ("", true)] "oops!!" "invalid document"
           [("hello", false)]).
  - reflexivity.
  - reflexivity.
  - reflexivity.
  - repeat constructor.
  - reflexivity.
Defined.

(** A failed round, the corrected document, and the transcript after. *)
Example edit_scenario :
  let w := mkWorld [Msg user "helo"; Msg user "/edit"] "chat" ∅ ∅ []
                   [("oops!", false); ("hello", false)] [] in
  let w' := final (handle_cmd (H := Sample.tools) emit "/edit" true w) in
  log w' = [Msg user "hello"]
  ∧ storage w' !! "chat" = Some [Msg user "hello"]
  ∧ trace w' = [ELogUndo 1 true; EEditor "helo";
                EPrint (Text.nl +:+ "Failed to parse TOML: invalid document");
                ESleep 1; EEditor "oops!";
                ELogReplace [Msg user "hello"]; ELogWrite;
                EPrint "Applied edited messages, write /log to see the result"].
Proof. repeat split. Qed.

(** ** Recognising a directive *)

Section Recognition.

Context `{Collaborators}.

Lemma dispatched_not_false {A} (m : M A) w w' :
  (m ;; ret true)%cmd w ≠ Ok false w'.
Proof. unfold bind, ret. by destruct (m w). Qed.

(** C6.  A user message is handed to [handle_cmd] exactly when the
    marker is its first character; any other user message makes
    [execute_cmd] return [False] with nothing changed. *)
Theorem directive_iff_marker_first msg w :
  role msg = user →
  (starts_with_marker (content msg) ↔
     execute_cmd msg w
     = (handle_cmd log_append (content msg) true ;; ret true)%cmd w)
  ∧ (¬ starts_with_marker (content msg) → execute_cmd msg w = Ok false w).
Proof.
  intros Hrole. unfold execute_cmd. rewrite Hrole.
  rewrite bool_decide_eq_true_2 by done. cbn [negb existsb].
  rewrite orb_false_r, starts_with_marker_first1.
  destruct (String.eqb_spec (Text.first1 (content msg)) "/") as [E|E].
  - split; [done|]. by intros [].
  - split; [|done]. split; [done|].
    intros Hd. symmetry in Hd. by apply dispatched_not_false in Hd.
Qed.

End Recognition.

Lemma directive_iff_marker_first_witness :
  let msg := Msg user "what is a slash / for?" in
  let w := Sample.session [msg] in
  (starts_with_marker (content msg) ↔
     execute_cmd (H := Sample.tools) msg w
     = (handle_cmd (H := Sample.tools) log_append (content msg) true ;; ret true)%cmd w)
  ∧ (¬ starts_with_marker (content msg)
     → execute_cmd (H := Sample.tools) msg w = Ok false w).
Proof.
  exact (directive_iff_marker_first (H := Sample.tools)
           (Msg user "what is a slash / for?")
           (Sample.session [Msg user "what is a slash / for?"]) eq_refl).
Defined.

(** One marker or two before a shell command. *)
Example double_marker :
  markers 1 +:+ "shell x" = "/shell x" ∧ markers 2 +:+ "shell x" = "//shell x"
  ∧ Text.split " " (Text.lstrip CMDFIX "//shell x") = ["shell"; "x"].
Proof. repeat split. Qed.

(** ** Unknown commands and help *)

Section Help.

Context `{Collaborators}.

(** C7.  For a name without a case of its own and a transcript with a
    last entry, the handler prints the unknown-command notice exactly
    when that entry is not the help directive, then undoes one message
    silently, persists the transcript, and prints the heading and one
    line with name and description per registered command. *)
Theorem unknown_command_help yield cmd nc w name args entry :
  Text.split " " (Text.lstrip CMDFIX cmd) = name :: args →
  name ∉ handled_names →
  last (log w) = Some entry →
  ∃ w', handle_cmd yield cmd nc w = Ok tt w'
        ∧ trace w' = trace w
            ++ (if decide (content entry = CMDFIX +:+ "help") then []
                else [EPrint "Unknown command"])
            ++ [ELogUndo 1 true; ELogWrite; EPrint "Available commands:"]
            ++ help_table
        ∧ log w' = undo 1 (log w)
        ∧ storage w' = <[conversation w := undo 1 (log w)]> (storage w)
        ∧ ∀ cmd', cmd' ∈ COMMANDS →
            ∃ desc, (cmd', desc) ∈ action_descriptions
                    ∧ EPrint ("  " +:+ cmd' +:+ ": " +:+ desc) ∈ help_table.
Proof.
  intros Hs Hn Hl. apply match_name_default in Hn.
  destruct (default_run yield cmd nc w name args entry Hs Hn Hl)
    as (w' & Hrun & Hlog & Hst & Ht).
  exists w'. do 4 (split; [done|]).
  intros cmd' Hin. unfold COMMANDS in Hin.
  apply list_elem_of_fmap in Hin as ([c d] & -> & Hin).
  exists d. split; [done|]. unfold help_table.
  apply list_elem_of_fmap. by exists (c, d).
Qed.

End Help.

Lemma unknown_command_help_witness :
  let w := Sample.session [Msg user "hello"; Msg user "/frobnicate"] in
  ∃ w', handle_cmd (H := Sample.tools) emit "/frobnicate" true w = Ok tt w'
        ∧ trace w' = trace w
            ++ (if decide (content (Msg user "/frobnicate") = CMDFIX +:+ "help")
                then [] else [EPrint "Unknown command"])
            ++ [ELogUndo 1 true; ELogWrite; EPrint "Available commands:"]
            ++ help_table
        ∧ log w' = undo 1 (log w)
        ∧ storage w' = <[conversation w := undo 1 (log w)]> (storage w)
        ∧ ∀ cmd', cmd' ∈ COMMANDS →
            ∃ desc, (cmd', desc) ∈ action_descriptions
                    ∧ EPrint ("  " +:+ cmd' +:+ ": " +:+ desc) ∈ help_table.
Proof.
  apply (unknown_command_help (H := Sample.tools) emit "/frobnicate" true
           (Sample.session [Msg user "hello"; Msg user "/frobnicate"])
           "frobnicate" [] (Msg user "/frobnicate")).
  - reflexivity.
  - apply (bool_decide_unpack _). vm_compute. reflexivity.
  - reflexivity.
Defined.

(** ** Saving over an existing file *)

Section Overwrite.

Context `{Collaborators}.

(** C8.  When the save command has a code block and its target exists,
    the handler asks for confirmation; it writes the file only if the
    answer lowers to ["y"], that is for ["y"] and ["Y"], and on every
    other answer it returns with the files as they were. *)
Theorem save_overwrite_needs_yes yield cmd nc w name args code filename
    ans more old :
  Text.split " " (Text.lstrip CMDFIX cmd) = name :: args →
  name = "save" →
  get_last_code_block (undo 1 (log w)) = Some code →
  code ≠ "" →
  target args (stdin w) = Some (filename, ans :: more) →
  files w !! filename = Some old →
  ∃ w' evs,
    handle_cmd yield cmd nc w = Ok tt w'
    ∧ trace w' = trace w ++ evs
    ∧ EInput "File already exists, overwrite? [y/N] " ∈ evs
    ∧ (Text.lower ans = "y" ↔ ans = "y" ∨ ans = "Y")
    ∧ (Text.lower ans = "y" →
         files w' = <[filename := code]> (files w)
         ∧ EFileWrite filename code ∈ evs)
    ∧ (Text.lower ans ≠ "y" →
         files w' = files w
         ∧ files w' !! filename = Some old
         ∧ ∀ path text, EFileWrite path text ∉ evs).
Proof.
  intros Hs -> Hcode Hne Htarget Hfile.
  destruct (save_run yield cmd nc w "save" args code filename ans more old
              Hs eq_refl Hcode Hne Htarget Hfile)
    as (w' & evs & Hrun & Ht & Hask & Hyes & Hno).
  exists w', evs. do 3 (split; [done|]).
  split; [apply lower_y|]. split; [done|].
  intros Hans. destruct (Hno Hans) as [Hf Hw]. by rewrite Hf.
Qed.

End Overwrite.

Lemma save_overwrite_needs_yes_witness :
  let w := mkWorld [Msg assistant "print(1)"; Msg user "/save out.py"] "chat" ∅
                   {["out.py" := "print(0)"]} ["no"] [] [] in
  ∃ w' evs,
    handle_cmd (H := Sample.tools) emit "/save out.py" true w = Ok tt w'
    ∧ trace w' = trace w ++ evs
    ∧ EInput "File already exists, overwrite? [y/N] " ∈ evs
    ∧ (Text.lower "no" = "y" ↔ "no" = "y" ∨ "no" = "Y")
    ∧ (Text.lower "no" = "y" →
         files w' = <["out.py" := "print(1)"]> (files w)
         ∧ EFileWrite "out.py" "print(1)" ∈ evs)
    ∧ (Text.lower "no" ≠ "y" →
         files w' = files w
         ∧ files w' !! "out.py" = Some "print(0)"
         ∧ ∀ path text, EFileWrite path text ∉ evs).
Proof.
  apply (save_overwrite_needs_yes (H := Sample.tools) emit "/save out.py" true
           (mkWorld [Msg assistant "print(1)"; Msg user "/save out.py"] "chat" ∅
                    {["out.py" := "print(0)"]} ["no"] [] [])
           "save" ["out.py"] "print(1)" "out.py" "no" [] "print(0)").
  - reflexivity.
  - reflexivity.
  - reflexivity.
  - discriminate.
  - reflexivity.
  - vm_compute. reflexivity.
Defined.

(** The two answers that let the save go on, and some that do not. *)
Example overwrite_answers :
  Text.lower "y" = "y" ∧ Text.lower "Y" = "y" ∧ Text.lower "yes" ≠ "y"
  ∧ Text.lower "" ≠ "y" ∧ Text.lower " y" ≠ "y".
Proof. repeat split; discriminate. Qed.

(** With no entry at all in the transcript the default case has nothing
    to compare with and raises. *)
Example unknown_command_empty_transcript :
  ∃ w', handle_cmd (H := Sample.tools) emit "/frobnicate" true (Sample.session [])
        = Raise IndexError w'.
Proof. by eexists. Qed.


(** * Further properties of the handlers *)

(** ** Splitting and joining *)

Lemma join_cons sep p q ps :
  Text.join sep (p :: q :: ps) = p +:+ sep +:+ Text.join sep (q :: ps).
Proof. reflexivity. Qed.

Lemma join_split sep s : Text.join (String sep "") (Text.split sep s) = s.
Proof.
  induction s as [|c s IH]; [done|]. cbn [Text.split].
  destruct (split_cons sep s) as (f & fs & Hs). rewrite Hs in *.
  destruct (Ascii.eqb_spec c sep) as [->|_].
  - rewrite join_cons, IH. reflexivity.
  - destruct fs as [|f' fs].
    + cbn [Text.join] in *. by rewrite IH.
    + rewrite join_cons in *. rewrite <- IH. reflexivity.
Qed.

Lemma split_no_sep sep s : Text.mem sep s = false → Text.split sep s = [s].
Proof.
  induction s as [|c s IH]; [done|]. cbn [Text.mem Text.split].
  intros Hm. apply orb_false_iff in Hm as [Hc Hm].
  rewrite Ascii.eqb_sym, Hc, (IH Hm). done.
Qed.

Lemma split_app_sep sep name rest :
  Text.mem sep name = false →
  Text.split sep (name +:+ String sep rest) = name :: Text.split sep rest.
Proof.
  induction name as [|c name IH]; cbn [Text.mem].
  - intros _. change ("" +:+ String sep rest) with (String sep rest).
    cbn [Text.split]. by rewrite Ascii.eqb_refl.
  - intros Hm. apply orb_false_iff in Hm as [Hc Hm].
    change (String c name +:+ String sep rest)
      with (String c (name +:+ String sep rest)).
    cbn [Text.split]. rewrite Ascii.eqb_sym, Hc, (IH Hm). done.
Qed.

(** X2.  [split] yields one field more than there are separators, no
    field contains the separator, and joining the fields with the
    separator gives the text back. *)
Theorem split_fields sep s :
  length (Text.split sep s) = S (count_char sep s)
  ∧ Forall (fun field => Text.mem sep field = false) (Text.split sep s)
  ∧ Text.join (String sep "") (Text.split sep s) = s.
Proof.
  split; [|split; [|apply join_split]].
  - induction s as [|c s IH]; [done|]. cbn [Text.split count_char].
    destruct (split_cons sep s) as (f & fs & Hs). rewrite Hs in *.
    destruct (Ascii.eqb c sep); simpl in *; lia.
  - induction s as [|c s IH]; [by repeat constructor|]. cbn [Text.split].
    destruct (split_cons sep s) as (f & fs & Hs). rewrite Hs in *.
    apply Forall_cons in IH as [Hf Hfs].
    destruct (Ascii.eqb c sep) eqn:E.
    + by repeat constructor.
    + constructor; [|done]. cbn [Text.mem].
      by rewrite Ascii.eqb_sym, E, Hf.
Qed.

(** ** Parsing a directive *)

Lemma lstrip_other s : Text.first1 s ≠ CMDFIX → Text.lstrip CMDFIX s = s.
Proof.
  destruct s as [|c s]; [done|]. cbn [Text.first1 Text.lstrip Text.mem CMDFIX].
  intros Hc. destruct (Ascii.eqb_spec c "/") as [->|_]; done.
Qed.

Lemma match_name_inv name :
  match match_name name with
  | HShell => name = "bash" ∨ name = "sh" ∨ name = "shell"
  | HPython => name = "python" ∨ name = "py"
  | HContinue => name = "continue"
  | HLog => name = "log"
  | HRename => name = "rename"
  | HFork => name = "fork"
  | HSummarize => name = "summarize"
  | HEdit => name = "edit"
  | HContext => name = "context"
  | HUndo => name = "undo"
  | HLoad => name = "load"
  | HSave => name = "save"
  | HExit => name = "exit"
  | HReplay => name = "replay"
  | HImpersonate => name = "impersonate"
  | HDefault => name ∉ handled_names
  end.
Proof.
  destruct (match_name name) eqn:Hm;
    try (by apply match_name_default);
    revert Hm; unfold match_name;
    repeat match goal with
    | |- context [String.eqb name ?s] =>
        destruct (String.eqb_spec name s) as [->|?]
    end; simpl; intros Hm; try discriminate Hm; auto.
Qed.

Lemma parse_directive n name text :
  Text.first1 name ≠ CMDFIX →
  Text.mem " " name = false →
  Text.split " " (Text.lstrip CMDFIX (markers n +:+ name +:+ " " +:+ text))
  = name :: Text.split " " text
  ∧ Text.split " " (Text.lstrip CMDFIX (markers n +:+ name)) = [name].
Proof.
  intros Hf Hm. rewrite !lstrip_markers. split.
  - rewrite lstrip_other.
    + by apply (split_app_sep " " name text).
    + destruct name; [by intros [=]|done].
  - rewrite lstrip_other by done. by apply split_no_sep.
Qed.

(** X1.  Whatever number of markers starts the directive, the command
    name is the text up to the first space and the arguments are the
    space-separated fields after it, empty fields included; a directive
    without a space has no arguments. *)
Theorem directive_name_and_arguments n name text :
  Text.first1 name ≠ CMDFIX →
  Text.mem " " name = false →
  Text.split " " (Text.lstrip CMDFIX (markers n +:+ name +:+ " " +:+ text))
  = name :: Text.split " " text
  ∧ Text.split " " (Text.lstrip CMDFIX (markers n +:+ name)) = [name].
Proof. apply parse_directive. Qed.

Lemma directive_name_and_arguments_witness :
  Text.split " " (Text.lstrip CMDFIX (markers 1 +:+ "shell" +:+ " " +:+ "ls  -l"))
  = "shell" :: Text.split " " "ls  -l"
  ∧ Text.split " " (Text.lstrip CMDFIX (markers 1 +:+ "shell")) = ["shell"].
Proof.
  apply (directive_name_and_arguments 1 "shell" "ls  -l").
  - discriminate.
  - reflexivity.
Defined.

Lemma handled_name_plain name :
  match_name name ≠ HDefault →
  Text.first1 name ≠ CMDFIX ∧ Text.mem " " name = false.
Proof.
  intros Hd. pose proof (match_name_inv name) as Hi.
  destruct (match_name name); try done;
    repeat match type of Hi with _ ∨ _ => destruct Hi as [Hi|Hi] end;
    subst name; by split.
Qed.

(** ** The execution tools *)

Section Tools.

Context `{Collaborators}.

Lemma tool_run yield name text nc w tool :
  tool_of (match_name name) = Some tool →
  handle_cmd yield (CMDFIX +:+ name +:+ " " +:+ text) nc w
  = yield_from yield (tool text (negb nc)) w.
Proof.
  intros Ht.
  assert (Hd : match_name name ≠ HDefault) by (by destruct (match_name name)).
  destruct (handled_name_plain name Hd) as [Hf Hm].
  destruct (parse_directive 1 name text Hf Hm) as [Hs _].
  unfold handle_cmd. change (CMDFIX +:+ name +:+ " " +:+ text)
    with (markers 1 +:+ name +:+ " " +:+ text).
  rewrite Hs.
  destruct (match_name name); try discriminate Ht;
    injection Ht as <-; by rewrite (join_split " " text).
Qed.

(** X3.  The shell and Python commands, under each of their names, hand
    the text after the first space to their tool exactly as typed, ask
    for confirmation unless told not to, and yield what the tool
    yields. *)
Theorem tool_gets_text_verbatim yield name text nc w tool :
  tool_of (match_name name) = Some tool →
  handle_cmd yield (CMDFIX +:+ name +:+ " " +:+ text) nc w
  = yield_from yield (tool text (negb nc)) w.
Proof. apply tool_run. Qed.

End Tools.

Lemma tool_gets_text_verbatim_witness :
  let w := Sample.session [Msg user "/sh echo  a /b"] in
  handle_cmd (H := Sample.tools) emit (CMDFIX +:+ "sh" +:+ " " +:+ "echo  a /b") false w
  = yield_from emit (execute_shell (Collaborators := Sample.tools) "echo  a /b" (negb false)) w.
Proof.
  exact (tool_gets_text_verbatim (H := Sample.tools) emit "sh" "echo  a /b" false
           (Sample.session [Msg user "/sh echo  a /b"])
           (execute_shell (Collaborators := Sample.tools)) eq_refl).
Defined.

(** ** Leading markers *)

Section LeadingMarkers.

Context `{Collaborators}.

(** C10.  [handle_cmd] drops every leading marker and nothing else: a
    text that does not start with one is what is left of it behind any
    number of markers.  So any two numbers of markers before the same text
    give the same name and arguments and the same run of the handler; the
    name is the text up to the first space, the arguments are the fields
    after it, and under a name of a tool command the run is that of the
    tool on the text after the name. *)
Theorem leading_markers_all_stripped yield n k text nc w :
  Text.lstrip CMDFIX (markers n +:+ text) = Text.lstrip CMDFIX text
  ∧ Text.first1 (Text.lstrip CMDFIX (markers n +:+ text)) ≠ CMDFIX
  ∧ Text.split " " (Text.lstrip CMDFIX (markers n +:+ text))
    = Text.split " " (Text.lstrip CMDFIX (markers k +:+ text))
  ∧ handle_cmd yield (markers n +:+ text) nc w
    = handle_cmd yield (markers k +:+ text) nc w
  ∧ (Text.first1 text ≠ CMDFIX →
     Text.lstrip CMDFIX (markers n +:+ text) = text)
  ∧ (∀ name rest,
       text = name +:+ " " +:+ rest →
       Text.first1 name ≠ CMDFIX →
       Text.mem " " name = false →
       Text.split " " (Text.lstrip CMDFIX (markers n +:+ text))
       = name :: Text.split " " rest
       ∧ ∀ tool, tool_of (match_name name) = Some tool →
           handle_cmd yield (markers n +:+ text) nc w
           = yield_from yield (tool rest (negb nc)) w).
Proof.
  split; [apply lstrip_markers|]. split; [apply lstrip_no_marker|].
  split; [by rewrite !lstrip_markers|].
  split; [unfold handle_cmd; by rewrite !lstrip_markers|].
  split; [intros Hf; by rewrite lstrip_markers, lstrip_other|].
  intros name rest -> Hf Hm.
  split; [by apply (parse_directive n name rest)|].
  intros tool Ht.
  rewrite <- (tool_run yield name rest nc w tool Ht).
  unfold handle_cmd.
  change (CMDFIX +:+ name +:+ " " +:+ rest)
    with (markers 1 +:+ name +:+ " " +:+ rest).
  by rewrite !lstrip_markers.
Qed.

End LeadingMarkers.

Lemma leading_markers_all_stripped_witness :
  let w := Sample.session [Msg user "//shell x"] in
  Text.split " " (Text.lstrip CMDFIX "//shell x") = ["shell"; "x"]
  ∧ handle_cmd (H := Sample.tools) emit "//shell x" false w
    = handle_cmd (H := Sample.tools) emit "/shell x" false w
  ∧ handle_cmd (H := Sample.tools) emit "//shell x" false w
    = yield_from emit (execute_shell (Collaborators := Sample.tools) "x" true) w.
Proof.
  destruct (leading_markers_all_stripped (H := Sample.tools) emit 2 1 "shell x"
              false (Sample.session [Msg user "//shell x"]))
    as (_ & _ & _ & Hsame & _ & Hparse).
  destruct (Hparse "shell" "x" eq_refl ltac:(discriminate) eq_refl)
    as [Hsplit Htool].
  split; [exact Hsplit|]. split; [exact Hsame|].
  exact (Htool (execute_shell (Collaborators := Sample.tools)) eq_refl).
Defined.

(** ** Under [execute_cmd] *)

Lemma for_each_log_append (gen : list Message) : ∀ w,
  ∃ w', for_each gen log_append w = Ok tt w'
        ∧ log w' = log w ++ gen
        ∧ trace w' = trace w ++ map ELogAppend gen
        ∧ conversation w' = conversation w ∧ storage w' = storage w
        ∧ files w' = files w ∧ stdin w' = stdin w ∧ editor w' = editor w.
Proof.
  induction gen as [|m gen IH]; intros w; simpl.
  - exists w. by rewrite !app_nil_r.
  - destruct (IH (record (ELogAppend m) (set_log (log w ++ [m]) w)))
      as (w' & E & Hl & Ht & Hrest).
    exists w'. split; [exact E|]. simpl in *.
    split; [by rewrite Hl, <- app_assoc|].
    split; [by rewrite Ht, <- app_assoc|]. done.
Qed.

Section UnderExecute.

Context `{Collaborators}.

(** X4.  A user message that is a shell or Python directive makes
    [execute_cmd] run the tool without confirmation and return [True]; the
    transcript keeps the directive and gains the tool's messages, in
    order, each by one call of [log.append]. *)
Theorem execute_cmd_runs_tool msg w name text tool :
  role msg = user →
  content msg = CMDFIX +:+ name +:+ " " +:+ text →
  tool_of (match_name name) = Some tool →
  ∃ w', execute_cmd msg w = Ok true w'
        ∧ log w' = log w ++ tool text false
        ∧ trace w' = trace w ++ map ELogAppend (tool text false).
Proof.
  intros Hr Hc Ht. unfold execute_cmd. rewrite Hr, Hc.
  change (existsb _ _) with true. cbn [negb bool_decide decide_rel].
  rewrite bool_decide_eq_true_2 by done. cbn [negb].
  unfold bind.
  rewrite (tool_run log_append name text true w tool Ht).
  unfold yield_from.
  destruct (for_each_log_append (tool text (negb true)) w)
    as (w' & -> & Hl & Htr & _).
  exists w'. by repeat split.
Qed.

End UnderExecute.

Lemma execute_cmd_runs_tool_witness :
  let msg := Msg user "/py print(1)" in
  let w := Sample.session [Msg user "hello"; msg] in
  ∃ w', execute_cmd (H := Sample.tools) msg w = Ok true w'
        ∧ log w' = log w ++ execute_python (Collaborators := Sample.tools) "print(1)" false
        ∧ trace w' = trace w
            ++ map ELogAppend (execute_python (Collaborators := Sample.tools) "print(1)" false).
Proof.
  exact (execute_cmd_runs_tool (H := Sample.tools) (Msg user "/py print(1)")
           (Sample.session [Msg user "hello"; Msg user "/py print(1)"])
           "py" "print(1)" (execute_python (Collaborators := Sample.tools))
           eq_refl eq_refl eq_refl).
Defined.

(** ** Impersonate and load *)

Section ImpersonateLoad.

Context `{Collaborators}.

(** X5.  A user message made of the impersonate directive, a space and a
    text makes [execute_cmd] append an assistant message with exactly
    that text, then what the execution handlers produce for it without
    confirmation; the directive stays, and no input is read, even for an
    empty text. *)
Theorem impersonate_appends_reply msg w text :
  role msg = user →
  content msg = CMDFIX +:+ "impersonate" +:+ " " +:+ text →
  ∃ w', execute_cmd msg w = Ok true w'
        ∧ log w' = log w ++ Msg assistant text
                     :: execute_msg (Msg assistant text) false
        ∧ trace w' = trace w ++ map ELogAppend
                       (Msg assistant text :: execute_msg (Msg assistant text) false)
        ∧ stdin w' = stdin w.
Proof.
  intros Hr Hc. unfold execute_cmd. rewrite Hr, Hc.
  change (existsb _ _) with true.
  rewrite bool_decide_eq_true_2 by done. cbn [negb].
  unfold bind at 1, handle_cmd.
  destruct (parse_directive 1 "impersonate" text) as [Hs _];
    [done|done|].
  change (markers 1 +:+ "impersonate" +:+ " " +:+ text)
    with (CMDFIX +:+ "impersonate" +:+ " " +:+ text) in Hs.
  rewrite Hs. change (match_name "impersonate") with HImpersonate. cbv iota.
  pose proof (join_split " " text) as Hj.
  destruct (split_cons " " text) as (f & fs & Hsp). rewrite Hsp in *.
  unfold bind at 1, ret. rewrite Hj.
  change (negb true) with false. unfold yield_from.
  unfold bind at 1, log_append at 1, modify.
  match goal with |- context [for_each ?gen log_append ?w1] =>
    destruct (for_each_log_append gen w1) as (w' & -> & Hl & Ht & _ & _ & _ & Hin & _)
  end.
  exists w'. split; [done|]. simpl in Hl, Ht, Hin.
  split; [by rewrite Hl, <- app_assoc|].
  split; [by rewrite Ht, <- app_assoc|]. done.
Qed.

Lemma load_found yield cmd nc w args filename rest contents :
  Text.split " " (Text.lstrip CMDFIX cmd) = "load" :: args →
  target args (stdin w) = Some (filename, rest) →
  files w !! filename = Some contents →
  handle_cmd yield cmd nc w
  = yield (Msg system ("# filename: " +:+ filename +:+ Text.nl +:+ Text.nl
                       +:+ contents))
          (asked "Filename: " args w).
Proof.
  intros Hs Ht Hf. unfold handle_cmd. rewrite Hs.
  change (match_name "load") with HLoad. cbv iota. unfold asked.
  destruct args as [|a args]; simpl in Ht.
  - destruct (stdin w) as [|line lines] eqn:Hin; [done|].
    injection Ht as -> ->.
    unfold bind, input, file_read, set_stdin, record.
    cbn [stdin]. rewrite Hin. cbn [files]. by rewrite Hf.
  - injection Ht as -> _. unfold bind, ret, file_read. by rewrite Hf.
Qed.

(** X6.  The load command, with the file name taken from its first
    argument or else read from the input, yields for an existing file
    exactly one system message: a header line with the name, an empty
    line, and the contents. *)
Theorem load_yields_file yield cmd nc w name args filename rest contents :
  Text.split " " (Text.lstrip CMDFIX cmd) = name :: args →
  name = "load" →
  target args (stdin w) = Some (filename, rest) →
  files w !! filename = Some contents →
  handle_cmd yield cmd nc w
  = yield (Msg system ("# filename: " +:+ filename +:+ Text.nl +:+ Text.nl
                       +:+ contents))
          (asked "Filename: " args w).
Proof. intros Hs ->. by apply load_found. Qed.

(** X7.  For a file that does not exist the load command raises
    [FileNotFoundError] and yields nothing; the transcript, the storage
    and the files are as before. *)
Theorem load_missing_file yield cmd nc w name args filename rest :
  Text.split " " (Text.lstrip CMDFIX cmd) = name :: args →
  name = "load" →
  target args (stdin w) = Some (filename, rest) →
  files w !! filename = None →
  handle_cmd yield cmd nc w
  = Raise FileNotFoundError (asked "Filename: " args w)
  ∧ log (asked "Filename: " args w) = log w
  ∧ storage (asked "Filename: " args w) = storage w
  ∧ files (asked "Filename: " args w) = files w.
Proof.
  intros Hs -> Ht Hf. unfold handle_cmd. rewrite Hs.
  change (match_name "load") with HLoad. cbv iota. unfold asked.
  destruct args as [|a args]; simpl in Ht.
  - destruct (stdin w) as [|line lines] eqn:Hin; [done|].
    injection Ht as -> ->.
    unfold bind, input, file_read, set_stdin, record.
    cbn [stdin]. rewrite Hin. cbn [files]. by rewrite Hf.
  - injection Ht as -> _. unfold bind, ret, file_read. by rewrite Hf.
Qed.

End ImpersonateLoad.

Lemma impersonate_appends_reply_witness :
  let msg := Msg user "/impersonate run  ls" in
  let w := Sample.session [msg] in
  ∃ w', execute_cmd (H := Sample.tools) msg w = Ok true w'
        ∧ log w' = log w ++ Msg assistant "run  ls"
                     :: execute_msg (Collaborators := Sample.tools)
                          (Msg assistant "run  ls") false
        ∧ trace w' = trace w ++ map ELogAppend
                       (Msg assistant "run  ls"
                        :: execute_msg (Collaborators := Sample.tools)
                             (Msg assistant "run  ls") false)
        ∧ stdin w' = stdin w.
Proof.
  exact (impersonate_appends_reply (H := Sample.tools)
           (Msg user "/impersonate run  ls")
           (Sample.session [Msg user "/impersonate run  ls"]) "run  ls"
           eq_refl eq_refl).
Defined.

Lemma load_yields_file_witness :
  let w := mkWorld [Msg user "/load"] "chat" ∅ {["notes.txt" := "remember"]}
                   ["notes.txt"] [] [] in
  handle_cmd (H := Sample.tools) log_append "/load" true w
  = log_append (Msg system ("# filename: " +:+ "notes.txt" +:+ Text.nl +:+ Text.nl
                            +:+ "remember"))
               (asked "Filename: " [] w).
Proof.
  apply (load_yields_file (H := Sample.tools) log_append "/load" true
           (mkWorld [Msg user "/load"] "chat" ∅ {["notes.txt" := "remember"]}
                    ["notes.txt"] [] [])
           "load" [] "notes.txt" [] "remember").
  - reflexivity.
  - reflexivity.
  - reflexivity.
  - vm_compute. reflexivity.
Defined.

Lemma load_missing_file_witness :
  let w := Sample.session [Msg user "/load gone.txt"] in
  handle_cmd (H := Sample.tools) log_append "/load gone.txt" true w
  = Raise FileNotFoundError (asked "Filename: " ["gone.txt"] w)
  ∧ log (asked "Filename: " ["gone.txt"] w) = log w
  ∧ storage (asked "Filename: " ["gone.txt"] w) = storage w
  ∧ files (asked "Filename: " ["gone.txt"] w) = files w.
Proof.
  apply (load_missing_file (H := Sample.tools) log_append "/load gone.txt" true
           (Sample.session [Msg user "/load gone.txt"])
           "load" ["gone.txt"] "gone.txt" []).
  - reflexivity.
  - reflexivity.
  - reflexivity.
  - vm_compute. reflexivity.
Defined.

(** ** Save and rename *)

Section SaveRename.

Context `{Collaborators}.

(** X8.  Without a code block in the transcript (none, or an empty one)
    the save command only retracts its directive and prints the notice:
    no file name is asked for, no input is read and no file is
    written, whatever its arguments. *)
Theorem save_without_code_block yield cmd nc w name args :
  Text.split " " (Text.lstrip CMDFIX cmd) = name :: args →
  name = "save" →
  get_last_code_block (undo 1 (log w)) = None
  ∨ get_last_code_block (undo 1 (log w)) = Some "" →
  ∃ w', handle_cmd yield cmd nc w = Ok tt w'
        ∧ trace w' = trace w ++ [ELogUndo 1 true; EPrint "No code block found"]
        ∧ log w' = undo 1 (log w)
        ∧ files w' = files w ∧ stdin w' = stdin w.
Proof.
  intros Hs -> Hc. unfold handle_cmd. rewrite Hs.
  change (match_name "save") with HSave. cbv iota.
  unfold bind, log_undo, modify, gets. cbn [log record set_log].
  destruct Hc as [-> | ->]; eexists; (split; [reflexivity|]); simpl;
    by rewrite <- app_assoc.
Qed.

(** X11.  The rename command retracts its directive, then renames the
    conversation to its first argument, ignoring further arguments, or to
    the whole line read from the input when it has no argument, and
    reports the new name. *)
Theorem rename_target yield cmd nc w name args new_name rest :
  Text.split " " (Text.lstrip CMDFIX cmd) = name :: args →
  name = "rename" →
  target args (stdin w) = Some (new_name, rest) →
  ∃ w', handle_cmd yield cmd nc w = Ok tt w'
        ∧ trace w' = trace w ++ [ELogUndo 1 true] ++ prompted "New name: " args
            ++ [ELogRename new_name;
                EPrint ("Renamed conversation to " +:+ new_name)]
        ∧ conversation w' = new_name
        ∧ log w' = undo 1 (log w)
        ∧ stdin w' = rest.
Proof.
  intros Hs -> Ht. unfold handle_cmd. rewrite Hs.
  change (match_name "rename") with HRename. cbv iota.
  unfold bind at 1. simpl.
  destruct args as [|a args]; simpl in Ht.
  - destruct (stdin w) as [|line lines] eqn:Hin; [done|].
    injection Ht as -> ->.
    unfold bind at 1, input at 1. simpl. rewrite Hin.
    eexists. split; [reflexivity|]. simpl.
    split; [by rewrite <- !app_assoc|]. done.
  - injection Ht as -> <-.
    eexists. split; [reflexivity|]. simpl.
    split; [by rewrite <- !app_assoc|]. done.
Qed.

End SaveRename.

Lemma save_without_code_block_witness :
  let w := mkWorld [Msg user "/save"] "chat" ∅ {["a.py" := "x"]} ["a.py"; "y"] [] [] in
  ∃ w', handle_cmd (H := Sample.tools) emit "/save" true w = Ok tt w'
        ∧ trace w' = trace w ++ [ELogUndo 1 true; EPrint "No code block found"]
        ∧ log w' = undo 1 (log w)
        ∧ files w' = files w ∧ stdin w' = stdin w.
Proof.
  apply (save_without_code_block (H := Sample.tools) emit "/save" true
           (mkWorld [Msg user "/save"] "chat" ∅ {["a.py" := "x"]} ["a.py"; "y"] [] [])
           "save" []).
  - reflexivity.
  - reflexivity.
  - left. reflexivity.
Defined.

Lemma rename_target_witness :
  let w := Sample.session [Msg user "/rename my chat"] in
  ∃ w', handle_cmd (H := Sample.tools) emit "/rename my chat" true w = Ok tt w'
        ∧ trace w' = trace w ++ [ELogUndo 1 true]
            ++ prompted "New name: " ["my"; "chat"]
            ++ [ELogRename "my"; EPrint ("Renamed conversation to " +:+ "my")]
        ∧ conversation w' = "my"
        ∧ log w' = undo 1 (log w)
        ∧ stdin w' = [].
Proof.
  apply (rename_target (H := Sample.tools) emit "/rename my chat" true
           (Sample.session [Msg user "/rename my chat"])
           "rename" ["my"; "chat"] "my" []).
  - reflexivity.
  - reflexivity.
  - reflexivity.
Defined.

(** ** Prompts and yields *)

Section Prompts.

Context `{Collaborators}.

(** X12.  A handler whose argument is missing asks for it; when the input
    is at its end, the handler raises [EOFError] right after the prompt.
    Rename and save have retracted their directive by then, fork, load
    and impersonate have touched nothing; nothing is renamed, stored or
    written. *)
Theorem prompt_at_end_of_input yield cmd nc w name prompt :
  Text.split " " (Text.lstrip CMDFIX cmd) = [name] →
  prompt_of (match_name name) = Some prompt →
  stdin w = [] →
  (match_name name = HSave →
   ∃ code, get_last_code_block (undo 1 (log w)) = Some code ∧ code ≠ "") →
  ∃ w', handle_cmd yield cmd nc w = Raise EOFError w'
        ∧ trace w' = trace w
            ++ (if retracts (match_name name) then [ELogUndo 1 true] else [])
            ++ [EInput prompt]
        ∧ log w' = (if retracts (match_name name) then undo 1 (log w) else log w)
        ∧ conversation w' = conversation w
        ∧ storage w' = storage w ∧ files w' = files w.
Proof.
  intros Hs Hp Hin Hsave. unfold handle_cmd. rewrite Hs.
  destruct (match_name name); try discriminate Hp; injection Hp as <-;
    cbn [retracts].
  - unfold bind, log_undo, modify, input. simpl. rewrite Hin.
    eexists. split; [reflexivity|]. simpl. by rewrite <- app_assoc.
  - unfold bind, input. simpl. rewrite Hin.
    eexists. split; [reflexivity|]. done.
  - unfold bind, input. simpl. rewrite Hin.
    eexists. split; [reflexivity|]. done.
  - destruct Hsave as (code & Hcode & Hne); [done|].
    unfold bind at 1. simpl. unfold bind at 1. simpl. rewrite Hcode.
    destruct code as [|c code]; [done|].
    unfold bind, input. simpl. rewrite Hin.
    eexists. split; [reflexivity|]. simpl. by rewrite <- app_assoc.
  - unfold bind, input. simpl. rewrite Hin.
    eexists. split; [reflexivity|]. done.
Qed.

(** X13.  Only the shell, Python, edit, context, load and impersonate
    cases yield: for every other command the run of the handler does not
    depend on who consumes the generator. *)
Theorem silent_handlers_ignore_consumer y1 y2 cmd nc w name args :
  Text.split " " (Text.lstrip CMDFIX cmd) = name :: args →
  yields (match_name name) = false →
  handle_cmd y1 cmd nc w = handle_cmd y2 cmd nc w.
Proof.
  intros Hs Hy. unfold handle_cmd. rewrite Hs.
  by destruct (match_name name).
Qed.

End Prompts.

Lemma prompt_at_end_of_input_witness :
  let w := Sample.session [Msg user "hello"; Msg user "/rename"] in
  ∃ w', handle_cmd (H := Sample.tools) emit "/rename" true w = Raise EOFError w'
        ∧ trace w' = trace w
            ++ (if retracts (match_name "rename") then [ELogUndo 1 true] else [])
            ++ [EInput "New name: "]
        ∧ log w' = (if retracts (match_name "rename") then undo 1 (log w) else log w)
        ∧ conversation w' = conversation w
        ∧ storage w' = storage w ∧ files w' = files w.
Proof.
  apply (prompt_at_end_of_input (H := Sample.tools) emit "/rename" true
           (Sample.session [Msg user "hello"; Msg user "/rename"])
           "rename" "New name: ").
  - reflexivity.
  - reflexivity.
  - reflexivity.
  - discriminate.
Defined.

Lemma silent_handlers_ignore_consumer_witness :
  let w := Sample.session [Msg user "hello"; Msg user "/log --hidden"] in
  handle_cmd (H := Sample.tools) emit "/log --hidden" true w
  = handle_cmd (H := Sample.tools) log_append "/log --hidden" true w.
Proof.
  exact (silent_handlers_ignore_consumer (H := Sample.tools) emit log_append
           "/log --hidden" true
           (Sample.session [Msg user "hello"; Msg user "/log --hidden"])
           "log" ["--hidden"] eq_refl eq_refl).
Defined.

(** ** More on the edit session *)

Section EditMore.

Context `{Collaborators}.

Lemma edit_loop_blocked rounds : ∀ t w,
  (∃ w', edit_loop emit rounds t w = Blocked w') ↔ Forall retried rounds.
Proof.
  induction rounds as [|[doc i] rounds IH]; intros t w.
  - split; [by constructor|]. intros _. by eexists.
  - rewrite Forall_cons. unfold retried at 1. cbn [fst snd edit_loop].
    unfold bind at 1. cbn [modify].
    destruct (toml_to_msgs doc) as [e|[|m res]].
    + unfold bind, print, modify. destruct i.
      * split; [by intros [w' Hw]|by intros [Hi _]].
      * rewrite IH. by split; [|intros [_ ?]].
    + rewrite IH. by split; [|intros [_ ?]].
    + split; [by intros [w' Hw]|by intros [Hi _]].
Qed.

Lemma edit_loop_success doc i rest res rounds : ∀ t w,
  Forall retried rounds → toml_to_msgs doc = inr res → res ≠ [] →
  ∃ w' evs,
    edit_loop emit (rounds ++ (doc, i) :: rest) t w = Ok (Some res) w'
    ∧ trace w' = trace w ++ evs
    ∧ Forall loop_event evs
    ∧ editor_inputs evs = t :: rounds.*1
    ∧ log w' = log w ∧ storage w' = storage w
    ∧ conversation w' = conversation w ∧ editor w' = rest.
Proof.
  intros t w Hr Hdoc Hne. revert t w.
  induction Hr as [|[doc' i'] rounds Hd Hr IH]; intros t w; simpl.
  - unfold bind at 1. simpl. rewrite Hdoc. destruct res as [|m res]; [done|].
    eexists _, [_]. split; [reflexivity|]. simpl.
    split; [done|]. split; [by repeat constructor|]. done.
  - unfold bind at 1. simpl. unfold retried in Hd. simpl in Hd.
    destruct (toml_to_msgs doc') as [e'|res'].
    + subst i'. unfold bind, print, modify. simpl.
      match goal with |- context [edit_loop emit _ doc' ?w1] =>
        destruct (IH doc' w1) as (w' & evs & -> & Ht & Hp & He & Hl & Hs & Hc & Hed)
      end.
      exists w', (EEditor t :: EPrint (Text.nl +:+ "Failed to parse TOML: " +:+ e')
                   :: ESleep 1 :: evs).
      split; [done|]. simpl in *.
      split; [by rewrite Ht, <- !app_assoc|].
      split; [by repeat constructor|]. by rewrite He.
    + subst res'.
      match goal with |- context [edit_loop emit _ doc' ?w1] =>
        destruct (IH doc' w1) as (w' & evs & -> & Ht & Hp & He & Hl & Hs & Hc & Hed)
      end.
      exists w', (EEditor t :: evs).
      split; [done|]. simpl in *.
      split; [by rewrite Ht, <- !app_assoc|].
      split; [by repeat constructor|]. by rewrite He.
Qed.

Lemma edit_after_retries cmd nc w args rounds doc i rest res :
  Text.split " " (Text.lstrip CMDFIX cmd) = "edit" :: args →
  editor w = rounds ++ (doc, i) :: rest →
  Forall retried rounds →
  toml_to_msgs doc = inr res →
  res ≠ [] →
  ∃ w' evs,
    handle_cmd emit cmd nc w = Ok tt w'
    ∧ log w' = rev res
    ∧ storage w' = <[conversation w := rev res]> (storage w)
    ∧ editor w' = rest
    ∧ trace w' = trace w ++ ELogUndo 1 true :: evs
        ++ [ELogReplace (rev res); ELogWrite;
            EPrint "Applied edited messages, write /log to see the result"]
    ∧ Forall loop_event evs
    ∧ editor_inputs evs = msgs_to_toml (rev (undo 1 (log w))) :: rounds.*1.
Proof.
  intros Hs Hed Hr Hdoc Hne. unfold handle_cmd. rewrite Hs.
  change (match_name "edit") with HEdit. cbv iota.
  unfold bind, gets, log_undo, modify. cbn [editor record set_log log].
  rewrite Hed.
  match goal with |- context [edit_loop emit _ ?t ?w1] =>
    destruct (edit_loop_success doc i rest res rounds t w1 Hr Hdoc Hne)
      as (w' & evs & -> & Ht & Hp & He & Hl & Hst & Hc & Hrest)
  end.
  simpl in Ht, Hl, Hst, Hc.
  eexists _, evs. split; [reflexivity|]. simpl.
  split; [done|]. split; [by rewrite Hc, Hst|]. split; [done|].
  split; [rewrite Ht, <- !app_assoc; reflexivity|]. done.
Qed.

(** X15.  The edit loop has no limit on attempts: with [emit] as the
    consumer, the handler is still waiting for the editor after the rounds
    so far exactly when every one of them was retried, that is, failed to
    parse without an interrupt, or parsed to no message. *)
Theorem edit_waits_iff_all_retried cmd nc w name args :
  Text.split " " (Text.lstrip CMDFIX cmd) = name :: args →
  name = "edit" →
  (∃ w', handle_cmd emit cmd nc w = Blocked w') ↔ Forall retried (editor w).
Proof.
  intros Hs ->. unfold handle_cmd. rewrite Hs.
  change (match_name "edit") with HEdit. cbv iota.
  unfold bind, gets, log_undo, modify. cbn [editor record set_log log].
  match goal with |- context [edit_loop emit (editor w) ?t ?w1] =>
    rewrite <- (edit_loop_blocked (editor w) t w1);
    destruct (edit_loop emit (editor w) t w1) as [[res|] w2|e2 w2|w2]
  end;
    split; intros [w' Hw]; try discriminate Hw; by eexists.
Qed.

(** X16.  After any number of retried rounds, the first document that
    parses to a non-empty sequence is applied: the transcript becomes the
    reversed sequence and is persisted.  The editor was opened first on
    the serialized reversed transcript and then, round after round, on the
    document the previous round returned. *)
Theorem edit_applies_after_retries cmd nc w name args rounds doc i rest res :
  Text.split " " (Text.lstrip CMDFIX cmd) = name :: args →
  name = "edit" →
  editor w = rounds ++ (doc, i) :: rest →
  Forall retried rounds →
  toml_to_msgs doc = inr res →
  res ≠ [] →
  ∃ w' evs,
    handle_cmd emit cmd nc w = Ok tt w'
    ∧ log w' = rev res
    ∧ storage w' = <[conversation w := rev res]> (storage w)
    ∧ editor w' = rest
    ∧ trace w' = trace w ++ ELogUndo 1 true :: evs
        ++ [ELogReplace (rev res); ELogWrite;
            EPrint "Applied edited messages, write /log to see the result"]
    ∧ Forall loop_event evs
    ∧ editor_inputs evs = msgs_to_toml (rev (undo 1 (log w))) :: rounds.*1.
Proof. intros Hs ->. by apply (edit_after_retries cmd nc w args). Qed.

(** X17.  When the serializer round-trips the transcript at hand and the
    editor returns the document untouched, the edit command leaves the
    transcript, less the retracted directive, as it was, and persists
    it. *)
Theorem edit_untouched_document cmd nc w name args i rest :
  Text.split " " (Text.lstrip CMDFIX cmd) = name :: args →
  name = "edit" →
  editor w = (msgs_to_toml (rev (undo 1 (log w))), i) :: rest →
  toml_to_msgs (msgs_to_toml (rev (undo 1 (log w)))) = inr (rev (undo 1 (log w))) →
  undo 1 (log w) ≠ [] →
  ∃ w', handle_cmd emit cmd nc w = Ok tt w'
        ∧ log w' = undo 1 (log w)
        ∧ storage w' !! conversation w = Some (undo 1 (log w)).
Proof.
  intros Hs -> Hed Hrt Hne.
  destruct (edit_after_retries cmd nc w args [] _ i rest _ Hs Hed
              ltac:(constructor) Hrt) as (w' & evs & Hrun & Hl & Hst & _).
  { intros Hrev. apply Hne. apply (f_equal (@rev _)) in Hrev.
    by rewrite rev_involutive in Hrev. }
  exists w'. split; [done|]. rewrite rev_involutive in Hl, Hst.
  split; [done|]. rewrite Hst. apply lookup_insert_eq.
Qed.

(** X18.  The edit command never installs an empty transcript: the one
    replacement it can make is by the reversed, non-empty result of a
    parse, and that is then the transcript it leaves. *)
Theorem edit_never_empties cmd nc w name args :
  Text.split " " (Text.lstrip CMDFIX cmd) = name :: args →
  name = "edit" →
  ∃ evs, trace (final (handle_cmd emit cmd nc w)) = trace w ++ evs
         ∧ ∀ msgs, ELogReplace msgs ∈ evs →
                   msgs ≠ [] ∧ log (final (handle_cmd emit cmd nc w)) = msgs.
Proof.
  intros Hs ->.
  destruct (edit_run cmd nc w "edit" args Hs eq_refl)
    as (evs & Hp & [(doc & res & w' & _ & _ & Hne & Hrun & Hl & _ & Ht)
                   | (_ & _ & Ht)]).
  - rewrite Hrun. cbn [final]. eexists. split; [exact Ht|].
    intros msgs Hin. apply elem_of_cons in Hin as [Hin|Hin]; [done|].
    apply elem_of_app in Hin as [Hin|Hin].
    + rewrite Forall_forall in Hp. by apply Hp in Hin.
    + apply elem_of_cons in Hin as [[= ->]|Hin].
      * split; [|done]. intros Hrev. apply Hne.
        apply (f_equal (@rev _)) in Hrev. by rewrite rev_involutive in Hrev.
      * repeat (apply elem_of_cons in Hin as [?|Hin]; [done|]).
        by apply elem_of_nil in Hin.
  - eexists. split; [exact Ht|].
    intros msgs Hin. apply elem_of_cons in Hin as [Hin|Hin]; [done|].
    rewrite Forall_forall in Hp. by apply Hp in Hin.
Qed.

End EditMore.

Lemma edit_waits_iff_all_retried_witness :
  let w := mkWorld [Msg user "helo"; Msg user "/edit"] "chat" ∅ ∅ []
                   [("oops!", false); ("", true)] [] in
  (∃ w', handle_cmd (H := Sample.tools) emit "/edit" true w = Blocked w')
  ↔ Forall (retried (H := Sample.tools)) (editor w).
Proof.
  exact (edit_waits_iff_all_retried (H := Sample.tools) "/edit" true
           (mkWorld [Msg user "helo"; Msg user "/edit"] "chat" ∅ ∅ []
                    [("oops!", false); ("", true)] [])
           "edit" [] eq_refl eq_refl).
Defined.

Lemma edit_applies_after_retries_witness :
  let w := mkWorld [Msg user "helo"; Msg user "/edit"] "chat" ∅ ∅ []
                   [("oops!", false); ("hello", false); ("later", false)] [] in
  ∃ w' evs,
    handle_cmd (H := Sample.tools) emit "/edit" true w = Ok tt w'
    ∧ log w' = rev [Msg user "hello"]
    ∧ storage w' = <[conversation w := rev [Msg user "hello"]]> (storage w)
    ∧ editor w' = [("later", false)]
    ∧ trace w' = trace w ++ ELogUndo 1 true :: evs
        ++ [ELogReplace (rev [Msg user "hello"]); ELogWrite;
            EPrint "Applied edited messages, write /log to see the result"]
    ∧ Forall loop_event evs
    ∧ editor_inputs evs
      = msgs_to_toml (Collaborators := Sample.tools) (rev (undo 1 (log w)))
        :: [("oops!", false)].*1.
Proof.
  apply (edit_applies_after_retries (H := Sample.tools) "/edit" true
           (mkWorld [Msg user "helo"; Msg user "/edit"] "chat" ∅ ∅ []
                    [("oops!", false); ("hello", false); ("later", false)] [])
           "edit" [] [("oops!", false)] "hello" false [("later", false)]
           [Msg user "hello"]).
  - reflexivity.
  - reflexivity.
  - reflexivity.
  - repeat constructor.
  - reflexivity.
  - discriminate.
Defined.

Lemma edit_untouched_document_witness :
  let w := mkWorld [Msg user "hi"; Msg user "/edit"] "chat" ∅ ∅ []
                   [("hi", false)] [] in
  ∃ w', handle_cmd (H := Sample.tools) emit "/edit" true w = Ok tt w'
        ∧ log w' = undo 1 (log w)
        ∧ storage w' !! conversation w = Some (undo 1 (log w)).
Proof.
  apply (edit_untouched_document (H := Sample.tools) "/edit" true
           (mkWorld [Msg user "hi"; Msg user "/edit"] "chat" ∅ ∅ []
                    [("hi", false)] [])
           "edit" [] false []).
  - reflexivity.
  - reflexivity.
  - reflexivity.
  - reflexivity.
  - discriminate.
Defined.

Lemma edit_never_empties_witness :
  let w := mkWorld [Msg user "hi"; Msg user "/edit"] "chat" ∅ ∅ []
                   [("", true); ("hi there", false)] [] in
  ∃ evs, trace (final (handle_cmd (H := Sample.tools) emit "/edit" true w))
         = trace w ++ evs
         ∧ ∀ msgs, ELogReplace msgs ∈ evs →
             msgs ≠ []
             ∧ log (final (handle_cmd (H := Sample.tools) emit "/edit" true w)) = msgs.
Proof.
  exact (edit_never_empties (H := Sample.tools) "/edit" true
           (mkWorld [Msg user "hi"; Msg user "/edit"] "chat" ∅ ∅ []
                    [("", true); ("hi there", false)] [])
           "edit" [] eq_refl eq_refl).
Defined.

(** ** Counts, names and the command table *)

Lemma numeral_plain d :
  all_decimal (NilEmpty.string_of_uint d) = true
  ∧ Text.mem " " (NilEmpty.string_of_uint d) = false.
Proof.
  unfold all_decimal.
  induction d; [done|..]; destruct IHd as [IH1 IH2];
    split; cbn [NilEmpty.string_of_uint list_ascii_of_string forallb Text.mem];
    by rewrite ?IH1, ?IH2.
Qed.

Lemma all_decimal_isdigit s : all_decimal s = true → all_isdigit s = true.
Proof.
  unfold all_decimal, all_isdigit. induction s as [|c s IH]; [done|].
  cbn [list_ascii_of_string forallb].
  rewrite <- is_decimal_char, <- is_digit_char. unfold Text.is_digit.
  intros [-> Hs]%andb_true_iff. by rewrite (IH Hs).
Qed.

Lemma decimal_nonempty n : decimal n ≠ "".
Proof.
  unfold decimal. intros E.
  pose proof (NilEmpty.usu (Nat.to_uint n)) as Hu. rewrite E in Hu.
  injection Hu as Hu. apply (f_equal Nat.of_uint) in Hu.
  rewrite DecimalNat.Unsigned.of_to in Hu. by subst n.
Qed.

Lemma decimal_count n : undo_count_spec [decimal n] = n.
Proof.
  unfold undo_count_spec, decimal_value.
  pose proof (proj1 (numeral_plain (Nat.to_uint n))) as Hd.
  pose proof (NilEmpty.usu (Nat.to_uint n)) as Hu.
  fold (decimal n) in Hd, Hu. rewrite Hd, Hu, DecimalNat.Unsigned.of_to.
  pose proof (decimal_nonempty n) as Hne. by destruct (decimal n).
Qed.

Section Counts.

Context `{Collaborators}.

Lemma decimal_refused n :
  refused [decimal n] = Text.over_limit int_max_str_digits (decimal n).
Proof.
  unfold refused.
  pose proof (proj1 (numeral_plain (Nat.to_uint n))) as Hd.
  fold (decimal n) in Hd. rewrite (all_decimal_isdigit _ Hd), Hd.
  pose proof (decimal_nonempty n) as Hne. by destruct (decimal n).
Qed.

(** X19.  The undo directive followed by a space and the decimal numeral
    of [n] makes the handler undo its directive silently and then call
    undo with exactly [n], for every [n] whose numeral the interpreter
    reads; for a numeral with more digits than its limit the handler
    raises [ValueError] after the silent undo. *)
Theorem undo_reads_every_numeral yield n nc w :
  if Text.over_limit int_max_str_digits (decimal n)
  then ∃ w', handle_cmd yield (CMDFIX +:+ "undo" +:+ " " +:+ decimal n) nc w
             = Raise ValueError w'
             ∧ trace w' = trace w ++ [ELogUndo 1 true]
  else ∃ w', handle_cmd yield (CMDFIX +:+ "undo" +:+ " " +:+ decimal n) nc w
             = Ok tt w'
             ∧ trace w' = trace w ++ [ELogUndo 1 true; ELogUndo n false].
Proof.
  destruct (parse_directive 1 "undo" (decimal n)) as [Hs _]; [done|done|].
  rewrite (split_no_sep " " (decimal n)) in Hs by apply numeral_plain.
  destruct (undo_run yield (CMDFIX +:+ "undo" +:+ " " +:+ decimal n) nc w
              "undo" [decimal n] Hs eq_refl) as (w1 & Ht1 & _ & Hrun).
  rewrite decimal_refused, decimal_count in Hrun.
  destruct (Text.over_limit _ _).
  - by exists w1.
  - destruct Hrun as (w' & Hrun & _ & Ht). exists w'. split; [done|].
    by rewrite Ht, Ht1, <- app_assoc.
Qed.

(** X22.  The log command retracts its directive and prints the
    transcript; hidden messages are shown exactly when the flag
    [--hidden] is among the arguments, at any position. *)
Theorem log_hidden_flag yield cmd nc w name args :
  Text.split " " (Text.lstrip CMDFIX cmd) = name :: args →
  name = "log" →
  ∃ w' shown,
    handle_cmd yield cmd nc w = Ok tt w'
    ∧ trace w' = trace w ++ [ELogUndo 1 true; ELogPrint shown]
    ∧ (shown = true ↔ "--hidden" ∈ args)
    ∧ log w' = undo 1 (log w).
Proof.
  intros Hs ->. unfold handle_cmd. rewrite Hs.
  change (match_name "log") with HLog. cbv iota.
  eexists _, (existsb (String.eqb "--hidden") args). split; [reflexivity|].
  split; [simpl; by rewrite <- app_assoc|]. split; [|done].
  rewrite existsb_exists. split.
  - intros (a & Hin & Ha). apply String.eqb_eq in Ha as <-.
    by apply list_elem_of_In.
  - intros Hin. exists "--hidden". split; [by apply list_elem_of_In|].
    apply String.eqb_refl.
Qed.

(** X24.  The summarize command prints the summary of the prepared
    messages that are not hidden, in their order: no hidden message
    reaches the summarizer, and nothing else is touched. *)
Theorem summarize_skips_hidden yield cmd nc w name args :
  Text.split " " (Text.lstrip CMDFIX cmd) = name :: args →
  name = "summarize" →
  ∃ w' msgs,
    handle_cmd yield cmd nc w = Ok tt w'
    ∧ adds [EPrint ("Summary: " +:+ summarize msgs)] w w'
    ∧ Forall (fun m => hide m = false) msgs
    ∧ msgs `sublist_of` prepare_messages (log w)
    ∧ ∀ m, m ∈ prepare_messages (log w) → hide m = false → m ∈ msgs.
Proof.
  intros Hs ->. unfold handle_cmd. rewrite Hs.
  change (match_name "summarize") with HSummarize. cbv iota.
  eexists _, _. split; [reflexivity|].
  split; [done|]. split; [|split].
  - apply Forall_forall. intros m Hm. by apply list_elem_of_filter in Hm as [? _].
  - apply sublist_filter.
  - intros m Hin Hh. by apply list_elem_of_filter.
Qed.

End Counts.

(** X21.  Command names are matched exactly as written: a name with an
    upper-case letter is none of the commands and goes to the default
    case. *)
Theorem names_are_case_sensitive name :
  Text.lower name ≠ name → match_name name = HDefault.
Proof.
  intros Hl. apply match_name_default. intros Hin. apply Hl.
  unfold handled_names in Hin.
  repeat (apply elem_of_cons in Hin as [->|Hin]; [done|]).
  by apply elem_of_nil in Hin.
Qed.

(** X20.  The command table and the cases agree up to aliases: every
    registered command has a case of its own except help, which is
    served by the default case; the names with a case that the table does
    not list are the aliases bash, sh and py, and context; and no command
    is registered twice. *)
Theorem command_table_and_cases :
  (∀ cmd, cmd ∈ COMMANDS → (match_name cmd = HDefault ↔ cmd = "help"))
  ∧ (∀ name, name ∈ handled_names →
             (name ∉ COMMANDS ↔ name ∈ ["bash"; "sh"; "py"; "context"]))
  ∧ NoDup COMMANDS.
Proof.
  split; [|split].
  - intros cmd Hin. unfold COMMANDS in Hin. cbn in Hin.
    repeat (apply elem_of_cons in Hin as [->|Hin]; [by split|]).
    by apply elem_of_nil in Hin.
  - intros name Hin. unfold handled_names in Hin.
    repeat (apply elem_of_cons in Hin as [->|Hin];
            [split; intros Hx;
             first [ by apply (bool_decide_unpack _)
                   | exfalso; by apply (bool_decide_unpack _) in Hx
                   | exfalso; revert Hx; by apply (bool_decide_unpack _) ]|]).
    by apply elem_of_nil in Hin.
  - by apply (bool_decide_unpack _).
Qed.

Section HelpDirective.

Context `{Collaborators}.

(** X23.  A user message that is the help directive, entered last in the
    transcript, makes [execute_cmd] retract it, persist the transcript and
    print the command table, and return [True].  The unknown-command
    notice is left out only for the directive with a single marker: with
    more than one the text of the message is no longer the expected one,
    and the notice is printed although help was asked for. *)
Theorem help_directive msg w pre n :
  role msg = user →
  content msg = markers (S n) +:+ "help" →
  log w = pre ++ [msg] →
  ∃ w', execute_cmd msg w = Ok true w'
        ∧ log w' = pre
        ∧ storage w' !! conversation w = Some pre
        ∧ trace w' = trace w
            ++ (if n is 0 then [] else [EPrint "Unknown command"])
            ++ [ELogUndo 1 true; ELogWrite; EPrint "Available commands:"]
            ++ help_table.
Proof.
  intros Hr Hc Hl. unfold execute_cmd. rewrite Hr.
  rewrite bool_decide_eq_true_2 by done. cbn [negb].
  replace (existsb _ _) with true by (by rewrite Hc).
  destruct (parse_directive (S n) "help" "") as [_ Hs]; [done|done|].
  rewrite <- Hc in Hs.
  assert (Hlast : last (log w) = Some msg) by (by rewrite Hl, last_snoc).
  destruct (default_run log_append (content msg) true w "help" [] msg Hs eq_refl Hlast)
    as (w' & Hrun & Hlog & Hst & Ht).
  unfold bind. rewrite Hrun. exists w'. split; [done|].
  rewrite Hl, undo_last in Hlog, Hst.
  split; [done|]. split; [rewrite Hst; apply lookup_insert_eq|].
  rewrite Ht. f_equal. f_equal. rewrite Hc.
  destruct n as [|n]; [done|]. by destruct (decide _).
Qed.

End HelpDirective.

Lemma help_directive_witness :
  let msg := Msg user "//help" in
  let w := Sample.session [Msg user "hello"; msg] in
  ∃ w', execute_cmd (H := Sample.tools) msg w = Ok true w'
        ∧ log w' = [Msg user "hello"]
        ∧ storage w' !! conversation w = Some [Msg user "hello"]
        ∧ trace w' = trace w
            ++ [EPrint "Unknown command"]
            ++ [ELogUndo 1 true; ELogWrite; EPrint "Available commands:"]
            ++ help_table.
Proof.
  exact (help_directive (H := Sample.tools) (Msg user "//help")
           (Sample.session [Msg user "hello"; Msg user "//help"])
           [Msg user "hello"] 1 eq_refl eq_refl eq_refl).
Defined.

Lemma log_hidden_flag_witness :
  let w := Sample.session [Msg user "hello"; Msg user "/log -v --hidden"] in
  ∃ w' shown,
    handle_cmd (H := Sample.tools) emit "/log -v --hidden" true w = Ok tt w'
    ∧ trace w' = trace w ++ [ELogUndo 1 true; ELogPrint shown]
    ∧ (shown = true ↔ "--hidden" ∈ ["-v"; "--hidden"])
    ∧ log w' = undo 1 (log w).
Proof.
  exact (log_hidden_flag (H := Sample.tools) emit "/log -v --hidden" true
           (Sample.session [Msg user "hello"; Msg user "/log -v --hidden"])
           "log" ["-v"; "--hidden"] eq_refl eq_refl).
Defined.

Lemma summarize_skips_hidden_witness :
  let w := Sample.session [mkMessage system "secret" true; Msg user "hello";
                           Msg user "/summarize"] in
  ∃ w' msgs,
    handle_cmd (H := Sample.tools) emit "/summarize" true w = Ok tt w'
    ∧ adds [EPrint ("Summary: " +:+ summarize (Collaborators := Sample.tools) msgs)] w w'
    ∧ Forall (fun m => hide m = false) msgs
    ∧ msgs `sublist_of` prepare_messages (Collaborators := Sample.tools) (log w)
    ∧ ∀ m, m ∈ prepare_messages (Collaborators := Sample.tools) (log w) →
           hide m = false → m ∈ msgs.
Proof.
  exact (summarize_skips_hidden (H := Sample.tools) emit "/summarize" true
           (Sample.session [mkMessage system "secret" true; Msg user "hello";
                            Msg user "/summarize"])
           "summarize" [] eq_refl eq_refl).
Defined.

Lemma names_are_case_sensitive_witness : match_name "Shell" = HDefault.
Proof.
  apply (names_are_case_sensitive "Shell"). discriminate.
Defined.

(** A numeral that is read, and one of 641 digits under a limit of 640. *)
Example numeral_and_limit :
  let w := Sample.session [Msg user "hello"] in
  let long := string_of_list_ascii (repeat "1"%char 641) in
  (∃ w', handle_cmd (H := with_limit 640 Sample.tools) emit "/undo 10" true w = Ok tt w'
         ∧ trace w' = [ELogUndo 1 true; ELogUndo 10 false])
  ∧ (∃ w', handle_cmd (H := with_limit 640 Sample.tools) emit ("/undo " +:+ long) true w
           = Raise ValueError w'
           ∧ trace w' = [ELogUndo 1 true]).
Proof. split; eexists; split; vm_compute; reflexivity. Qed.
